(** * pdf-workdesk: the page-range parser, the colour conversion, the
      watermark grid and merge, and the extraction front ends of
      [utils/helpers.py], embedded as Rocq functions.

    Conventions of the embedding.
    - A Python [str] is a [string]; a character is read as the code point
      of that number (U+0000 .. U+00FF).  Code points above U+00FF are
      outside the model.
    - A Python [int] is a [Z].  [int] and [parse_page_numbers] are the
      conversion and the parser on an interpreter without resource limits;
      [int_limited] and [parse_page_numbers_limited] add the limits of
      CPython: the cap on the number of digits [int()] converts
      (ValueError), [sys.maxsize] as the largest length of a range that can
      be asked for (OverflowError), and a longest list that memory allows
      (MemoryError).  Within the limits the two agree.
    - A Python [float] is the rational it denotes ([Q]); [n / 255] is the
      exact quotient, of which the interpreter returns the nearest double.
    - An exception is a value of [exn]; a call that may raise returns a
      [result].  [st.cache_data] memoises pure functions and is dropped. *)

From Stdlib Require Import ZArith List Bool Ascii String QArith Qround Lia Lqa.
Import ListNotations.

Local Open Scope string_scope.
Local Open Scope list_scope.
Local Open Scope Z_scope.

(* ================================================================== *)
(** ** Exceptions and results *)

Inductive exn : Type :=
| ValueError
| IndexError
| OverflowError
| MemoryError
| TypeError.

Inductive result (A : Type) : Type :=
| Ok (a : A)
| Raise (e : exn).

Arguments Ok {A} a.
Arguments Raise {A} e.

Definition bind {A B : Type} (m : result A) (k : A -> result B) : result B :=
  match m with
  | Ok a => k a
  | Raise e => Raise e
  end.

Notation "x <- m ;; k" := (bind m (fun x => k))
  (at level 61, m at next level, right associativity).
Notation "' p <- m ;; k" := (bind m (fun x => match x with p => k end))
  (at level 61, p pattern, m at next level, right associativity).

(** A [for] loop whose body may raise: the loop state is threaded through
    the iterations and the first exception ends the loop. *)
Fixpoint for_each {A S : Type} (body : S -> A -> result S) (xs : list A) (s : S)
  : result S :=
  match xs with
  | [] => Ok s
  | x :: xs' => s' <- body s x ;; for_each body xs' s'
  end.

(* ================================================================== *)
(** ** Python built-ins used by the module *)

Definition code (c : ascii) : N := N_of_ascii c.

Definition in_range (lo hi : N) (c : ascii) : bool :=
  (N.leb lo (code c) && N.leb (code c) hi)%bool.

(** [str.isspace] on one character, which is what [str.strip()] removes:
    TAB..CR, FS..US, SPACE, NEL, NBSP. *)
Definition is_space (c : ascii) : bool :=
  (in_range 9 13 c || in_range 28 32 c
   || N.eqb (code c) 133 || N.eqb (code c) 160)%bool.

(** The white space [int()] skips around a literal: the C locale's
    (TAB..CR, SPACE) and the non-ASCII spaces, which the conversion first
    rewrites to SPACE.  FS..US are not skipped. *)
Definition is_int_space (c : ascii) : bool :=
  (in_range 9 13 c || N.eqb (code c) 32
   || N.eqb (code c) 133 || N.eqb (code c) 160)%bool.

(** The interpreter's digit table: '0'..'9', then the letters in either
    case for 10..35. *)
Definition digit_value (c : ascii) : option Z :=
  if in_range 48 57 c then Some (Z.of_N (code c) - 48)
  else if in_range 97 122 c then Some (Z.of_N (code c) - 87)
  else if in_range 65 90 c then Some (Z.of_N (code c) - 55)
  else None.

Fixpoint lstrip_with (p : ascii -> bool) (s : string) : string :=
  match s with
  | String c s' => if p c then lstrip_with p s' else s
  | EmptyString => EmptyString
  end.

Fixpoint rstrip_with (p : ascii -> bool) (s : string) : string :=
  match s with
  | String c s' =>
      match rstrip_with p s' with
      | EmptyString => if p c then EmptyString else String c EmptyString
      | r => String c r
      end
  | EmptyString => EmptyString
  end.

(** [s.strip()] *)
Definition strip (s : string) : string :=
  rstrip_with is_space (lstrip_with is_space s).

Fixpoint str_contains (c : ascii) (s : string) : bool :=
  match s with
  | String d s' => (Ascii.eqb d c || str_contains c s')%bool
  | EmptyString => false
  end.

(** [s.lstrip(chars)]: drops every leading character that occurs in
    [chars]. *)
Definition lstrip (chars : string) (s : string) : string :=
  lstrip_with (fun c => str_contains c chars) s.

(** [s.split(sep)] for a one-character separator: never an empty list. *)
Fixpoint split (sep : ascii) (s : string) : list string :=
  match s with
  | EmptyString => [EmptyString]
  | String c s' =>
      if Ascii.eqb c sep then EmptyString :: split sep s'
      else match split sep s' with
           | h :: t => String c h :: t
           | [] => [String c EmptyString]
           end
  end.

(** [s[i:j]] for [0 <= i <= j]: clipped to the string, never raises. *)
Definition slice (i j : nat) (s : string) : string :=
  substring i (j - i) s.

(** The digit run of an integer literal: digits below [base], single
    underscores allowed between digits only.  Returns the value read, the
    number of digits and the unread rest. *)
Fixpoint scan_digits (base : Z) (s : string) (acc : Z) (prev_us : bool) (n : nat)
  : option (Z * nat * string) :=
  let stop := if prev_us then None else Some (acc, n, s) in
  match s with
  | String c s' =>
      if Ascii.eqb c "_" then
        if prev_us then None else scan_digits base s' acc true n
      else
        match digit_value c with
        | Some d =>
            if d <? base then scan_digits base s' (acc * base + d) false (S n)
            else stop
        | None => stop
        end
  | EmptyString => stop
  end.

Definition take_sign (s : string) : bool * string :=
  match s with
  | String "+" r => (false, r)
  | String "-" r => (true, r)
  | _ => (false, s)
  end.

Definition prefix_letter (base : Z) (c : ascii) : bool :=
  if base =? 16 then (Ascii.eqb c "x" || Ascii.eqb c "X")%bool
  else if base =? 8 then (Ascii.eqb c "o" || Ascii.eqb c "O")%bool
  else if base =? 2 then (Ascii.eqb c "b" || Ascii.eqb c "B")%bool
  else false.

Definition take_prefix (base : Z) (s : string) : string :=
  match s with
  | String "0" (String x r) =>
      if prefix_letter base x then
        match r with
        | String "_" r' => r'
        | _ => r
        end
      else s
  | _ => s
  end.

(** [int(s, base)] for an explicit base in 2..36. *)
Definition int_of_str (base : Z) (s : string) : result Z :=
  let '(neg, s1) := take_sign (lstrip_with is_int_space s) in
  let s2 := take_prefix base s1 in
  match s2 with
  | String "_" _ => Raise ValueError
  | _ =>
      match scan_digits base s2 0 false 0 with
      | None => Raise ValueError
      | Some (v, n, rest) =>
          match n, lstrip_with is_int_space rest with
          | S _, EmptyString => Ok (if neg then - v else v)
          | _, _ => Raise ValueError
          end
      end
  end.

(** [int(s)], the digit cap of the interpreter apart (see [int_limited]). *)
Definition int (s : string) : result Z := int_of_str 10 s.

(** [int(x)] of a float: truncation toward zero. *)
Definition int_of_float (x : Q) : Z := Z.quot (Qnum x) (Zpos (Qden x)).

(** [len(range(start, stop, step))] for [step <> 0]. *)
Definition range_length (start stop step : Z) : Z :=
  if 0 <? step then
    if start <? stop then (stop - start - 1) / step + 1 else 0
  else
    if stop <? start then (start - stop - 1) / (- step) + 1 else 0.

(** [range(start, stop, step)] as the list of its elements. *)
Definition range3 (start stop step : Z) : result (list Z) :=
  if step =? 0 then Raise ValueError
  else Ok (map (fun i => start + Z.of_nat i * step)
               (seq 0 (Z.to_nat (range_length start stop step)))).

(** [range(start, stop)] *)
Definition range (start stop : Z) : list Z :=
  map (fun i => start + Z.of_nat i) (seq 0 (Z.to_nat (stop - start))).

(** [xs[i]] on a sequence: a negative index counts from the end, an index
    out of range raises [IndexError]. *)
Definition getitem {A : Type} (xs : list A) (i : Z) : result A :=
  let n := Z.of_nat (List.length xs) in
  let j := if i <? 0 then i + n else i in
  if (j <? 0) || (n <=? j) then Raise IndexError
  else match nth_error xs (Z.to_nat j) with
       | Some x => Ok x
       | None => Raise IndexError
       end.

(* ================================================================== *)
(** ** [parse_page_numbers] *)

(** [start, end = map(int, pieces)]: the conversions run one by one while
    the two targets are filled, then one more element is asked for to see
    that the iterator is exhausted. *)
Definition unpack_start_end (pieces : list string) : result (Z * Z) :=
  match pieces with
  | [] => Raise ValueError
  | a :: rest_a =>
      start <- int a ;;
      match rest_a with
      | [] => Raise ValueError
      | b :: rest_b =>
          end_ <- int b ;;
          match rest_b with
          | [] => Ok (start, end_)
          | c :: _ => _ <- int c ;; Raise ValueError
          end
      end
  end.

(** One iteration of the loop over [parts]. *)
Definition parse_part (parsed_page_numbers : list Z) (part : string)
  : result (list Z) :=
  let part := strip part in
  if str_contains "-" part then
    '(start, end_) <- unpack_start_end (split "-" part) ;;
    Ok (parsed_page_numbers ++ range start (end_ + 1))
  else
    page <- int part ;;
    Ok (parsed_page_numbers ++ [page]).

Definition parse_page_numbers (page_numbers_str : string) : result (list Z) :=
  let parts := split "," page_numbers_str in
  parsed_page_numbers <- for_each parse_part parts [] ;;
  Ok (map (fun i => i - 1) parsed_page_numbers).

(* ================================================================== *)
(** ** [parse_page_numbers] under the interpreter's limits *)

(** [sys.maxsize], 2^63 - 1: no sequence is longer. *)
Definition maxsize : Z := 9223372036854775807.

(** [sys.int_info.default_max_str_digits] and
    [sys.int_info.str_digits_check_threshold]. *)
Definition max_str_digits : Z := 4300.
Definition str_digits_check_threshold : Z := 640.

(** The bases converted in linear time, which the cap leaves alone. *)
Definition power_of_two_base (base : Z) : bool :=
  ((base =? 2) || (base =? 4) || (base =? 8) || (base =? 16)
   || (base =? 32))%bool.

(** The check [int()] makes on the number [n] of digits of a literal
    (underscores, sign and white space do not count, leading zeros do). *)
Definition digits_over_limit (base : Z) (n : nat) : bool :=
  (negb (power_of_two_base base)
   && (str_digits_check_threshold <? Z.of_nat n)
   && (0 <? max_str_digits)
   && (max_str_digits <? Z.of_nat n))%bool.

(** [int(s, base)] with the cap: a digit run longer than the cap raises
    ValueError, whatever follows it. *)
Definition int_of_str_limited (base : Z) (s : string) : result Z :=
  let '(neg, s1) := take_sign (lstrip_with is_int_space s) in
  let s2 := take_prefix base s1 in
  match s2 with
  | String "_" _ => Raise ValueError
  | _ =>
      match scan_digits base s2 0 false 0 with
      | None => Raise ValueError
      | Some (v, n, rest) =>
          if digits_over_limit base n then Raise ValueError
          else
            match n, lstrip_with is_int_space rest with
            | S _, EmptyString => Ok (if neg then - v else v)
            | _, _ => Raise ValueError
            end
      end
  end.

Definition int_limited (s : string) : result Z := int_of_str_limited 10 s.

Definition unpack_start_end_limited (pieces : list string) : result (Z * Z) :=
  match pieces with
  | [] => Raise ValueError
  | a :: rest_a =>
      start <- int_limited a ;;
      match rest_a with
      | [] => Raise ValueError
      | b :: rest_b =>
          end_ <- int_limited b ;;
          match rest_b with
          | [] => Ok (start, end_)
          | c :: _ => _ <- int_limited c ;; Raise ValueError
          end
      end
  end.

Section Limits.

(** The length of the longest list the interpreter finds memory for. *)
Variable list_limit : Z.

(** [xs.append(x)] *)
Definition append_limited (xs : list Z) (x : Z) : result (list Z) :=
  if list_limit <? Z.of_nat (List.length xs) + 1 then Raise MemoryError
  else Ok (xs ++ [x]).

(** [xs.extend(range(start, stop))]: the length of the range is asked for
    first, which raises OverflowError above [sys.maxsize]; then the room
    for the elements is needed. *)
Definition extend_range_limited (xs : list Z) (start stop : Z)
  : result (list Z) :=
  let n := range_length start stop 1 in
  if maxsize <? n then Raise OverflowError
  else if list_limit <? Z.of_nat (List.length xs) + n then Raise MemoryError
  else Ok (xs ++ range start stop).

Definition parse_part_limited (parsed_page_numbers : list Z) (part : string)
  : result (list Z) :=
  let part := strip part in
  if str_contains "-" part then
    '(start, end_) <- unpack_start_end_limited (split "-" part) ;;
    extend_range_limited parsed_page_numbers start (end_ + 1)
  else
    page <- int_limited part ;;
    append_limited parsed_page_numbers page.

Definition parse_page_numbers_limited (page_numbers_str : string)
  : result (list Z) :=
  let parts := split "," page_numbers_str in
  parsed_page_numbers <- for_each parse_part_limited parts [] ;;
  Ok (map (fun i => i - 1) parsed_page_numbers).

End Limits.

(** ["c" * n] *)
Fixpoint repeat_char (c : ascii) (n : nat) : string :=
  match n with
  | O => EmptyString
  | S n' => String c (repeat_char c n')
  end.

(* ================================================================== *)
(** ** [hex_to_rgba] *)

Definition hex_to_rgba (hex_color : string) : result (Q * Q * Q) :=
  let hex_color := lstrip "#" hex_color in
  r <- int_of_str 16 (slice 0 2 hex_color) ;;
  g <- int_of_str 16 (slice 2 4 hex_color) ;;
  b <- int_of_str 16 (slice 4 6 hex_color) ;;
  Ok (r # 255, g # 255, b # 255)%Q.

(* ================================================================== *)
(** ** The watermark canvas *)

(** The drawing calls the module makes on a [reportlab] canvas, recorded
    in the order they are issued. *)
Inductive canvas_op : Type :=
| SetFont (name : string) (size : Z)
| SetFillColorRGB (r g b : Q)
| SetFillAlpha (alpha : Q)
| SaveState
| Translate (x y : Z)
| Rotate (degrees : Z)
| DrawCentredString (x y : Z) (text : string)
| RestoreState
| Save.

Record Canvas : Type := mkCanvas {
  pagesize : Q * Q;
  drawn : list canvas_op
}.

Definition emit (ops : list canvas_op) (can : Canvas) : Canvas :=
  mkCanvas (pagesize can) (drawn can ++ ops).

(** [reportlab.lib.pagesizes.letter]: 8.5 by 11 inches at 72 points. *)
Definition letter : Q * Q := (612 # 1, 792 # 1)%Q.

(** The body of the inner loop: one stamped tile at [(x, y)]. *)
Definition stamp_tile (stamp_label : string) (x y : Z) : list canvas_op :=
  [SaveState; Translate x y; Rotate 45; DrawCentredString 0 0 stamp_label;
   RestoreState].

Definition draw_watermark_grid (can : Canvas) (stamp_label : string)
    (step_x step_y : Z) (width height : Q) : result Canvas :=
  xs <- range3 (-100) (int_of_float width + 100) step_x ;;
  for_each
    (fun can x =>
       ys <- range3 (-100) (int_of_float height + 100) step_y ;;
       for_each (fun can y => Ok (emit (stamp_tile stamp_label x y) can)) ys can)
    xs can.

(** [can.setFillAlpha(a)]: the library raises ValueError unless
    [0 <= a <= 1]. *)
Definition setFillAlpha (a : Q) (can : Canvas) : result Canvas :=
  if (Qle_bool 0 a && Qle_bool a 1)%bool then Ok (emit [SetFillAlpha a] can)
  else Raise ValueError.

Definition create_watermark_canvas (stamp_label : string) (stamp_size : Z)
    (stamp_color : string) (stamp_transparency : Q) : result Canvas :=
  let can := mkCanvas letter [] in
  let can := emit [SetFont "Helvetica" stamp_size] can in
  '(r, g, b) <- hex_to_rgba stamp_color ;;
  let can := emit [SetFillColorRGB r g b] can in
  can <- setFillAlpha stamp_transparency can ;;
  let can := emit [SaveState] can in
  can <- draw_watermark_grid can stamp_label 150 100 (fst letter) (snd letter) ;;
  Ok (emit [Save] can).

(** The origins the canvas was translated to, in drawing order. *)
Definition origins_of (ops : list canvas_op) : list (Z * Z) :=
  flat_map (fun op => match op with
                      | Translate x y => [(x, y)]
                      | _ => []
                      end) ops.

Definition tile_origins (can : Canvas) : list (Z * Z) := origins_of (drawn can).

(* ================================================================== *)
(** ** [merge_watermark_into_pdf] *)

(** A PDF document is the list of its pages; reading it from bytes and
    writing it back are the library's work.  The library's
    [page.merge_page(page2, over=...)] is a parameter. *)
Section Merge.

Variable Page : Type.
Variable merge_page : Page -> Page -> bool -> Page.

Definition merge_watermark_into_pdf (pdf watermark : list Page)
  : result (list Page) :=
  let writer : list Page := [] in
  let reader := pdf in
  watermark_page <- getitem watermark 0 ;;
  for_each
    (fun writer page =>
       let page := merge_page page watermark_page false in
       Ok (writer ++ [page]))
    reader writer.

End Merge.

(* ================================================================== *)
(** ** [extract_text] and [extract_images] *)

Inductive extraction_mode : Type := plain | layout.

Record Image : Type := mkImage {
  image_data : string;
  image_name : string
}.

Record PdfPage : Type := mkPage {
  page_text : extraction_mode -> string;
  page_images : list Image
}.

Record PdfReader : Type := mkReader {
  pages : list PdfPage
}.

(** What an extraction does besides computing its result: the calls it
    makes to the parser and to the pages. *)
Inductive event : Type :=
| ParserCalled (page_numbers_str : string)
| TextRead (page : PdfPage) (mode : extraction_mode)
| ImagesRead (page : PdfPage).

(** A computation that logs its calls and may raise. *)
Definition traced (A : Type) : Type := list event * result A.

Definition tret {A : Type} (a : A) : traced A := ([], Ok a).

Definition tbind {A B : Type} (m : traced A) (k : A -> traced B) : traced B :=
  match m with
  | (log, Ok a) => let '(log', r) := k a in (log ++ log', r)
  | (log, Raise e) => (log, Raise e)
  end.

Notation "x <~ m ;; k" := (tbind m (fun x => k))
  (at level 61, m at next level, right associativity).

Definition log_of {A : Type} (m : traced A) : list event := fst m.
Definition outcome {A : Type} (m : traced A) : result A := snd m.

Definition call_parse_page_numbers (s : string) : traced (list Z) :=
  ([ParserCalled s], parse_page_numbers s).

Definition call_extract_text (page : PdfPage) (mode : extraction_mode)
  : traced string :=
  ([TextRead page mode], Ok (page_text page mode)).

Definition call_images (page : PdfPage) : traced (list Image) :=
  ([ImagesRead page], Ok (page_images page)).

Definition lift {A : Type} (r : result A) : traced A := ([], r).

Fixpoint tfor_each {A S : Type} (body : S -> A -> traced S) (xs : list A) (s : S)
  : traced S :=
  match xs with
  | [] => tret s
  | x :: xs' => s' <~ body s x ;; tfor_each body xs' s'
  end.

Definition extract_text (reader : PdfReader) (page_numbers_str : string)
    (mode : extraction_mode) : traced string :=
  let text := "" in
  if String.eqb page_numbers_str "all" then
    tfor_each
      (fun text page =>
         t <~ call_extract_text page mode ;;
         tret ((text ++ " ") ++ t)%string)
      (pages reader) text
  else
    pages_ <~ call_parse_page_numbers page_numbers_str ;;
    tfor_each
      (fun text page =>
         p <~ lift (getitem (pages reader) page) ;;
         t <~ call_extract_text p plain ;;
         tret ((text ++ " ") ++ t)%string)
      pages_ text.

(** A [dict] from image data to image name, in insertion order. *)
Fixpoint dict_set (k v : string) (d : list (string * string))
  : list (string * string) :=
  match d with
  | [] => [(k, v)]
  | (k', v') :: d' =>
      if String.eqb k' k then (k, v) :: d' else (k', v') :: dict_set k v d'
  end.

Definition dict_update (d new : list (string * string))
  : list (string * string) :=
  fold_left (fun d kv => dict_set (fst kv) (snd kv) d) new d.

(** [{image.data: image.name for image in images}] *)
Definition image_dict (images : list Image) : list (string * string) :=
  fold_left (fun d image => dict_set (image_data image) (image_name image) d)
            images [].

Definition extract_images (reader : PdfReader) (page_numbers_str : string)
  : traced (list (string * string)) :=
  let images : list (string * string) := [] in
  if String.eqb page_numbers_str "all" then
    tfor_each
      (fun images page =>
         imgs <~ call_images page ;;
         tret (dict_update images (image_dict imgs)))
      (pages reader) images
  else
    pages_ <~ call_parse_page_numbers page_numbers_str ;;
    tfor_each
      (fun images page =>
         p <~ lift (getitem (pages reader) page) ;;
         imgs <~ call_images p ;;
         tret (dict_update images (image_dict imgs)))
      pages_ images.

(* ================================================================== *)
(** ** The specification's vocabulary *)

Fixpoint all_chars (p : ascii -> bool) (s : string) : bool :=
  match s with
  | String c s' => (p c && all_chars p s')%bool
  | EmptyString => true
  end.

Definition is_decimal_digit (c : ascii) : bool := in_range 48 57 c.

(** A base-10 integer literal: one or more decimal digits. *)
Definition is_decimal (s : string) : bool :=
  match s with
  | EmptyString => false
  | _ => all_chars is_decimal_digit s
  end.

Fixpoint decimal_from (v : Z) (s : string) : Z :=
  match s with
  | String c s' => decimal_from (10 * v + (Z.of_N (code c) - 48)) s'
  | EmptyString => v
  end.

Definition decimal_value (s : string) : Z := decimal_from 0 s.

Fixpoint count_up (n : nat) (a : Z) : list Z :=
  match n with
  | O => []
  | S n' => a :: count_up n' (a + 1)
  end.

(** Every integer of [[a, b]], ascending. *)
Definition inclusive (a b : Z) : list Z := count_up (Z.to_nat (b - a + 1)) a.

(** The one-based pages a trimmed token names. *)
Definition spec_token_pages (tok : string) : list Z :=
  match split "-" tok with
  | [a; b] => inclusive (decimal_value a) (decimal_value b)
  | _ => [decimal_value tok]
  end.

Definition tokens (s : string) : list string := map strip (split "," s).

(** The page index list of the specification: tokens in order, ranges
    expanded, one subtracted from every page, nothing removed. *)
Definition spec_indices (s : string) : list Z :=
  flat_map (fun tok => map (fun p => p - 1) (spec_token_pages tok)) (tokens s).

(** A token that is a literal or two literals around one hyphen. *)
Definition wellformed_token (tok : string) : bool :=
  match split "-" tok with
  | [a] => is_decimal a
  | [a; b] => (is_decimal a && is_decimal b)%bool
  | _ => false
  end.

Definition wellformed_spec (s : string) : bool :=
  forallb wellformed_token (tokens s).

(** No literal of the spec has more digits than [int()] converts. *)
Definition literals_within_cap (s : string) : bool :=
  forallb (fun tok =>
             forallb (fun a => Z.of_nat (String.length a) <=? max_str_digits)
                     (split "-" tok))
          (tokens s).

(** A token of a valid page-range spec: a literal [>= 1], or two of them
    around one hyphen with the first not above the second. *)
Definition valid_token (tok : string) : bool :=
  match split "-" tok with
  | [a] => (is_decimal a && (1 <=? decimal_value a))%bool
  | [a; b] =>
      (is_decimal a && is_decimal b && (1 <=? decimal_value a)
       && (decimal_value a <=? decimal_value b))%bool
  | _ => false
  end.

Definition valid_spec (s : string) : bool := forallb valid_token (tokens s).

Fixpoint occurrences (c : ascii) (s : string) : nat :=
  match s with
  | String d s' => ((if Ascii.eqb d c then 1 else 0) + occurrences c s')%nat
  | EmptyString => O
  end.

(** A token one of whose hyphen-separated pieces [int()] does not accept
    as an integer. *)
Definition non_numeric (tok : string) : Prop :=
  exists piece, In piece (split "-" tok) /\ int piece = Raise ValueError.

(** A token that is empty, has a piece that is no integer, or has more
    than one hyphen. *)
Definition malformed (tok : string) : Prop :=
  tok = EmptyString \/ non_numeric tok \/ (1 < occurrences "-" tok)%nat.

(** The arguments of the parser calls of a log, in order. *)
Definition parser_calls (log : list event) : list string :=
  flat_map (fun e => match e with
                     | ParserCalled s => [s]
                     | _ => []
                     end) log.

(** A coordinate of the grid: -100 plus a multiple of the step, below the
    truncated page extent plus 100. *)
Definition grid_point (step extent x : Z) : Prop :=
  exists i, 0 <= i /\ x = -100 + step * i /\ x < extent + 100.

(** The characters a base-10 literal of [int()] can hold: decimal digits,
    a sign, underscores, and the spaces it skips. *)
Definition literal_char (c : ascii) : bool :=
  (is_decimal_digit c || is_int_space c || Ascii.eqb "+" c || Ascii.eqb "-" c
   || Ascii.eqb "_" c)%bool.

Definition is_hex_digit (c : ascii) : bool :=
  (in_range 48 57 c || in_range 97 102 c || in_range 65 70 c)%bool.

Definition hex_value (c : ascii) : Z :=
  if in_range 48 57 c then Z.of_N (code c) - 48
  else if in_range 97 102 c then Z.of_N (code c) - 97 + 10
  else Z.of_N (code c) - 65 + 10.

(** The value of a two-hex-digit channel. *)
Definition channel_value (hi lo : ascii) : Z := 16 * hex_value hi + hex_value lo.

Definition strip_optional_hash (s : string) : string :=
  match s with
  | String "#" r => r
  | _ => s
  end.

(** Exactly six hexadecimal digits after one optional leading '#'. *)
Definition is_hex_color (s : string) : bool :=
  let t := strip_optional_hash s in
  (Nat.eqb (String.length t) 6 && all_chars is_hex_digit t)%bool.

Definition is_sign (c : ascii) : bool := (Ascii.eqb c "+" || Ascii.eqb c "-")%bool.

(** The strings of at most two characters that are base-16 literals: one
    or two hex digits, or one hex digit with a sign or a space before it or
    a space after it. *)
Definition short_hex_literal (s : string) : bool :=
  match s with
  | String a EmptyString => is_hex_digit a
  | String a (String b EmptyString) =>
      ((is_hex_digit a && is_hex_digit b) || (is_sign a && is_hex_digit b)
       || (is_int_space a && is_hex_digit b)
       || (is_hex_digit a && is_int_space b))%bool
  | _ => false
  end.

(** The characters a base-16 literal of at most two characters can hold. *)
Definition hex_literal_char (c : ascii) : bool :=
  (is_hex_digit c || is_sign c || is_int_space c)%bool.

(** The channel read at offset [i] of a string of hex digits. *)
Definition channel_at (i : nat) (t : string) : Z :=
  match String.get i t, String.get (S i) t with
  | Some hi, Some lo => channel_value hi lo
  | _, _ => 0
  end.

(** What is checked of [int(s, 16)] on every one- and two-character
    string: it succeeds exactly on the short literals, with a value from
    -15 to 255 that is negative only behind a minus sign and is the
    channel value on two hex digits. *)
Definition int16_checked (s : string) (first : ascii) (both_hex : bool)
    (value : Z) : bool :=
  match int_of_str 16 s with
  | Ok v =>
      (short_hex_literal s && (-15 <=? v) && (v <=? 255)
       && implb (v <? 0) (Ascii.eqb first "-")
       && implb both_hex (v =? value))%bool
  | Raise _ => negb (short_hex_literal s)
  end.

Definition int16_single_check (a : ascii) : bool :=
  int16_checked (String a EmptyString) a false 0.

Definition int16_pair_check (a b : ascii) : bool :=
  int16_checked (String a (String b EmptyString)) a
                (is_hex_digit a && is_hex_digit b) (channel_value a b).

(** Every character, for checks by enumeration. *)
Definition all_ascii : list ascii := map ascii_of_nat (seq 0 256).

(* ================================================================== *)
(** ** Further functions of the module *)

(** [str.lower()] on one character: the upper-case letters among the
    model's code points are 'A'..'Z' and U+00C0..U+00DE without U+00D7,
    each 32 below its lower-case letter. *)
Definition lower_char (c : ascii) : ascii :=
  if (in_range 65 90 c || in_range 192 214 c || in_range 216 222 c)%bool
  then ascii_of_N (code c + 32)
  else c.

(** [s.lower()] *)
Fixpoint lower (s : string) : string :=
  match s with
  | String c s' => String (lower_char c) (lower s')
  | EmptyString => EmptyString
  end.

(** [select_pages]: the text the input box returned, lower-cased.  The
    placeholder "all" is only displayed; an empty box returns "". *)
Definition select_pages (typed : string) : string := lower typed.

(** [d.get(k)] on the image dictionary. *)
Fixpoint dict_get (k : string) (d : list (string * string)) : option string :=
  match d with
  | [] => None
  | (k', v) :: d' => if String.eqb k' k then Some v else dict_get k d'
  end.

(** The name of the last image of a list that has the given data. *)
Fixpoint last_name (k : string) (images : list Image) : option string :=
  match images with
  | [] => None
  | image :: images' =>
      match last_name k images' with
      | Some name => Some name
      | None => if String.eqb (image_data image) k
                then Some (image_name image) else None
      end
  end.

(** The depth of the saved graphics states after a run of drawing calls
    begun at depth [d]; [None] when a state is restored that was never
    saved. *)
Fixpoint state_depth (d : nat) (ops : list canvas_op) : option nat :=
  match ops with
  | [] => Some d
  | SaveState :: ops' => state_depth (S d) ops'
  | RestoreState :: ops' =>
      match d with
      | O => None
      | S d' => state_depth d' ops'
      end
  | _ :: ops' => state_depth d ops'
  end.

(** [watermark_pdf]: the canvas is saved to a PDF, which is read back and
    merged into the document.  The pages the library reads from a saved
    canvas are a parameter, like the merge of two pages. *)
Section Watermark_pdf.

Variable Page : Type.
Variable merge_page : Page -> Page -> bool -> Page.
Variable canvas_pages : Canvas -> list Page.

Definition watermark_pdf (pdf : list Page) (stamp_label : string)
    (stamp_size : Z) (stamp_color : string) (stamp_transparency : Q)
  : result (list Page) :=
  watermark <- create_watermark_canvas stamp_label stamp_size stamp_color
                                       stamp_transparency ;;
  merge_watermark_into_pdf Page merge_page pdf (canvas_pages watermark).

End Watermark_pdf.

(** *** PDF dates *)

(** The pieces of the pattern of [is_pdf_datetime]: a literal character or
    [\d], which among the model's code points is '0'..'9'. *)
Inductive atom : Type :=
| Lit (c : ascii)
| Digit.

Definition atom_matches (a : atom) (c : ascii) : bool :=
  match a with
  | Lit d => Ascii.eqb c d
  | Digit => is_decimal_digit c
  end.

(** Matching a sequence of one-character pieces from the start of the
    string ([re.match], [^]); gives the unmatched rest. *)
Fixpoint match_atoms (atoms : list atom) (s : string) : option string :=
  match atoms with
  | [] => Some s
  | a :: atoms' =>
      match s with
      | String c s' => if atom_matches a c then match_atoms atoms' s' else None
      | EmptyString => None
      end
  end.

Definition newline : ascii := ascii_of_nat 10.

(** [$]: the end of the string, or just before a newline that ends it. *)
Definition at_end (s : string) : bool :=
  (String.eqb s EmptyString || String.eqb s (String newline EmptyString))%bool.

(** [^D:\d{14}\+\d{2}\'\d{2}\'$] *)
Definition pdf_datetime_pattern : list atom :=
  [Lit "D"; Lit ":"] ++ repeat Digit 14 ++ [Lit "+"] ++ repeat Digit 2
  ++ [Lit "'"] ++ repeat Digit 2 ++ [Lit "'"].

Definition is_pdf_datetime (s : string) : bool :=
  match match_atoms pdf_datetime_pattern s with
  | Some rest => at_end rest
  | None => false
  end.

(** [s[i:]] *)
Definition slice_from (i : nat) (s : string) : string :=
  substring i (String.length s - i) s.

(** [s.replace(c, "")] for a one-character [c]. *)
Fixpoint remove_char (c : ascii) (s : string) : string :=
  match s with
  | String d s' =>
      if Ascii.eqb d c then remove_char c s' else String d (remove_char c s')
  | EmptyString => EmptyString
  end.

(** A value shown in the metadata table: the page count or a string. *)
Inductive cell : Type :=
| Count (n : nat)
| Text (s : string).

(** [metadata[k] = v] on the table's dictionary. *)
Fixpoint row_set (k : string) (v : cell) (d : list (string * cell))
  : list (string * cell) :=
  match d with
  | [] => [(k, v)]
  | (k', v') :: d' =>
      if String.eqb k' k then (k, v) :: d' else (k', v') :: row_set k v d'
  end.

Fixpoint row_get (k : string) (d : list (string * cell)) : option cell :=
  match d with
  | [] => None
  | (k', v) :: d' => if String.eqb k' k then Some v else row_get k d'
  end.

(** A value of the metadata dictionary: a string, or an object of another
    type (a number, a byte string, an array). *)
Inductive meta_value : Type :=
| StrValue (s : string)
| OtherValue.

(** [convert_pdf_datetime] and [display_metadata].  The library call
    [datetime.strptime(x, "%Y%m%d%H%M%S").strftime("%Y-%m-%d %H:%M:%S ")]
    is the parameter [reformat]. *)
Section Metadata.

Variable reformat : string -> result string.

Definition convert_pdf_datetime (pdf_datetime : string) : result string :=
  let pdf_datetime := slice_from 2 pdf_datetime in
  let date_str := slice 0 8 pdf_datetime in
  let time_str := slice 8 14 pdf_datetime in
  let tz_str := slice_from 14 pdf_datetime in
  formatted <- reformat (date_str ++ time_str)%string ;;
  Ok (formatted ++ tz_str)%string.

(** One assignment of the loop: a value that is no string makes
    [re.match] raise TypeError; a string with the shape of a PDF date is
    converted; the row is named by the key without its '/' characters. *)
Definition set_row (metadata : list (string * cell))
    (kv : string * meta_value) : result (list (string * cell)) :=
  let k := fst kv in
  match snd kv with
  | OtherValue => Raise TypeError
  | StrValue value =>
      value <- (if is_pdf_datetime value then convert_pdf_datetime value
                else Ok value) ;;
      Ok (row_set (remove_char "/" k) (Text value) metadata)
  end.

(** [info] is [reader.metadata]: [None] for a document without an
    information dictionary, over which the loop raises TypeError; the
    result is the dictionary the data frame is built from. *)
Definition display_metadata (reader : PdfReader)
    (info : option (list (string * meta_value)))
  : result (list (string * cell)) :=
  let metadata := [("Number of pages", Count (List.length (pages reader)))] in
  match info with
  | None => Raise TypeError
  | Some entries => for_each set_row entries metadata
  end.

End Metadata.

(** *** [extract_tables] *)

(** [xs[start:stop]]: negative bounds count from the end, bounds outside
    the list are clipped, nothing raises. *)
Definition clip_bound (n i : Z) : Z :=
  if i <? 0 then Z.max 0 (i + n) else Z.min i n.

Definition slice_list {A : Type} (xs : list A) (start stop : Z) : list A :=
  let n := Z.of_nat (List.length xs) in
  let a := clip_bound n start in
  let b := clip_bound n stop in
  firstn (Z.to_nat (b - a)) (skipn (Z.to_nat a) xs).

Inductive strategy : Type := by_lines | by_lines_strict | by_text.

(** The table of a page: rows of cells, a cell being a string or [None]. *)
Definition table_rows : Type := list (list (option string)).

(** What is handed to [pd.DataFrame] and written out. *)
Record Frame : Type := mkFrame {
  frame_rows : table_rows;
  frame_columns : option (list (option string))
}.

(** The widgets' values ([vertical_strategy], [horizontal_strategy],
    [header]) are arguments; the pages are those of the opened file, and
    what [page.extract_tables] finds on a page is a parameter. *)
Section Tables.

Variable PlumberPage : Type.
Variable page_tables : PlumberPage -> strategy -> strategy -> list table_rows.

(** [pd.DataFrame(table[first_row_index:], columns=table[0] if header else None)] *)
Definition frame_of (header : bool) (table : table_rows) : result Frame :=
  let first_row_index := if header then 1%nat else 0%nat in
  let rows := skipn first_row_index table in
  columns <- (if header then
                row <- getitem table 0 ;; Ok (Some row)
              else Ok None) ;;
  Ok (mkFrame rows columns).

Definition write_tables (vertical horizontal : strategy) (header : bool)
    (written : list Frame) (page : PlumberPage) : result (list Frame) :=
  for_each
    (fun written table =>
       frame <- frame_of header table ;;
       Ok (written ++ [frame]))
    (page_tables page vertical horizontal) written.

Definition extract_tables (table_pdf_pages : list PlumberPage)
    (page_numbers_str : string) (vertical_strategy horizontal_strategy : strategy)
    (header : bool) : result (list Frame) :=
  if String.eqb page_numbers_str "all" then
    for_each (write_tables vertical_strategy horizontal_strategy header)
             table_pdf_pages []
  else
    pages_ <- parse_page_numbers page_numbers_str ;;
    for_each
      (fun written page =>
         for_each (write_tables vertical_strategy horizontal_strategy header)
                  (slice_list table_pdf_pages page (page + 1)) written)
      pages_ [].

End Tables.

(** Equality of two outcomes of [int()], for checks by enumeration. *)
Definition same_outcome (a b : result Z) : bool :=
  match a, b with
  | Ok x, Ok y => x =? y
  | Raise ValueError, Raise ValueError => true
  | Raise IndexError, Raise IndexError => true
  | _, _ => false
  end.

(* ================================================================== *)
(** * Properties *)

(** ** Checks by enumeration of the characters *)

Lemma all_ascii_complete (c : ascii) : In c all_ascii.
Proof.
  unfold all_ascii.
  rewrite <- (ascii_nat_embedding c).
  apply in_map, in_seq.
  pose proof (nat_ascii_bounded c). lia.
Qed.

Lemma for_all_chars (P : ascii -> bool) :
  forallb P all_ascii = true -> forall c, P c = true.
Proof.
  intros H c. rewrite forallb_forall in H. apply H, all_ascii_complete.
Qed.

Lemma for_all_pairs (P : ascii -> ascii -> bool) :
  forallb (fun a => forallb (P a) all_ascii) all_ascii = true ->
  forall a b, P a b = true.
Proof.
  intros H a b.
  apply (for_all_chars (P a)).
  apply (for_all_chars (fun a => forallb (P a) all_ascii) H).
Qed.

(** What the parser needs to know of a decimal digit. *)
Lemma decimal_digit_facts (c : ascii) :
  is_decimal_digit c = true ->
  is_int_space c = false /\ is_space c = false
  /\ Ascii.eqb c "_" = false /\ Ascii.eqb c "-" = false
  /\ Ascii.eqb c "+" = false /\ Ascii.eqb c "," = false
  /\ digit_value c = Some (Z.of_N (code c) - 48)
  /\ 0 <= Z.of_N (code c) - 48 < 10.
Proof.
  pose proof (for_all_chars
    (fun c => implb (is_decimal_digit c)
       (negb (is_int_space c) && negb (is_space c)
        && negb (Ascii.eqb c "_") && negb (Ascii.eqb c "-")
        && negb (Ascii.eqb c "+") && negb (Ascii.eqb c ",")
        && match digit_value c with
           | Some d => (d =? Z.of_N (code c) - 48) && (0 <=? d) && (d <? 10)
           | None => false
           end)) eq_refl c) as H.
  cbv beta in H. intros Hd. rewrite Hd in H. simpl in H.
  repeat (apply andb_prop in H; destruct H as [H ?]).
  destruct (digit_value c) as [d|]; [|discriminate].
  repeat match goal with
         | X : (_ && _)%bool = true |- _ => apply andb_prop in X; destruct X
         | X : negb _ = true |- _ => apply negb_true_iff in X
         end.
  repeat split; try assumption; try lia.
  f_equal. lia.
Qed.

(** ** [int()] on decimal literals *)

Lemma scan_digits_decimal (s : string) :
  forall acc n,
    all_chars is_decimal_digit s = true ->
    scan_digits 10 s acc false n
    = Some (decimal_from acc s, (n + String.length s)%nat, EmptyString).
Proof.
  induction s as [|c s IH]; intros acc n Hs; simpl in *.
  - rewrite Nat.add_0_r. reflexivity.
  - apply andb_prop in Hs. destruct Hs as [Hc Hs].
    destruct (decimal_digit_facts c Hc) as (_ & _ & Hus & _ & _ & _ & Hv & Hr).
    rewrite Hus, Hv.
    replace (Z.of_N (code c) - 48 <? 10) with true by (symmetry; apply Z.ltb_lt; lia).
    rewrite IH by assumption.
    rewrite (Z.mul_comm acc 10). do 3 f_equal. lia.
Qed.

Lemma int_decimal (s : string) :
  is_decimal s = true -> int s = Ok (decimal_value s).
Proof.
  destruct s as [|c s]; [discriminate|].
  unfold is_decimal. intros Hs.
  pose proof Hs as Hall. simpl in Hs.
  apply andb_prop in Hs. destruct Hs as [Hc _].
  destruct (decimal_digit_facts c Hc) as (Hsp & _ & Hus & Hm & Hp & _ & _ & _).
  unfold int, int_of_str.
  cbn [lstrip_with]. rewrite Hsp.
  assert (Hsign : take_sign (String c s) = (false, String c s)).
  { unfold take_sign.
    destruct c as [[] [] [] [] [] [] [] []]; try reflexivity; discriminate. }
  rewrite Hsign.
  assert (Hpre : take_prefix 10 (String c s) = String c s).
  { unfold take_prefix.
    destruct c as [[] [] [] [] [] [] [] []]; try reflexivity.
    destruct s; reflexivity. }
  rewrite Hpre.
  rewrite (scan_digits_decimal _ 0 0%nat Hall).
  destruct c as [[] [] [] [] [] [] [] []]; try reflexivity; discriminate.
Qed.

Lemma decimal_no_char (c : ascii) (s : string) :
  is_decimal_digit c = false ->
  all_chars is_decimal_digit s = true -> str_contains c s = false.
Proof.
  intros Hc. induction s as [|d s IH]; simpl; intros Hs; [reflexivity|].
  apply andb_prop in Hs. destruct Hs as [Hd Hs].
  rewrite (IH Hs), orb_false_r.
  destruct (Ascii.eqb_spec d c) as [->|]; congruence.
Qed.

Lemma is_decimal_all (s : string) :
  is_decimal s = true -> all_chars is_decimal_digit s = true.
Proof. destruct s; [discriminate|]. exact (fun H => H). Qed.

(** ** [split] *)

Lemma split_not_nil (c : ascii) (s : string) : split c s <> [].
Proof.
  destruct s as [|d s]; simpl; [discriminate|].
  destruct (Ascii.eqb d c); [discriminate|].
  destruct (split c s); discriminate.
Qed.

Lemma split_absent (c : ascii) (s : string) :
  str_contains c s = false -> split c s = [s].
Proof.
  induction s as [|d s IH]; simpl; intros H; [reflexivity|].
  apply orb_false_iff in H. destruct H as [Hd Hs].
  rewrite Hd, (IH Hs). reflexivity.
Qed.

Lemma split_at_first (c : ascii) (a b : string) :
  str_contains c a = false ->
  split c (a ++ String c b)%string = a :: split c b.
Proof.
  induction a as [|d a IH]; simpl; intros H.
  - rewrite Ascii.eqb_refl. reflexivity.
  - apply orb_false_iff in H. destruct H as [Hd Ha].
    rewrite Hd, (IH Ha). reflexivity.
Qed.

Lemma split_length (c : ascii) (s : string) :
  List.length (split c s) = S (occurrences c s).
Proof.
  induction s as [|d s IH]; simpl; [reflexivity|].
  destruct (Ascii.eqb d c); simpl.
  - rewrite IH. reflexivity.
  - destruct (split c s) as [|h t] eqn:E; simpl in *; [discriminate|].
    exact IH.
Qed.

Lemma contains_occurrences (c : ascii) (s : string) :
  str_contains c s = negb (Nat.eqb (occurrences c s) 0).
Proof.
  induction s as [|d s IH]; simpl; [reflexivity|].
  destruct (Ascii.eqb d c); simpl; [reflexivity|exact IH].
Qed.

Lemma split_one (c : ascii) (s a : string) :
  split c s = [a] -> str_contains c s = false /\ a = s.
Proof.
  intros H.
  assert (Hn : occurrences c s = O).
  { pose proof (split_length c s) as L. rewrite H in L. simpl in L. lia. }
  assert (Hc : str_contains c s = false).
  { rewrite contains_occurrences, Hn. reflexivity. }
  split; [exact Hc|].
  rewrite (split_absent c s Hc) in H. congruence.
Qed.

Lemma split_many (c : ascii) (s a b : string) (r : list string) :
  split c s = a :: b :: r -> str_contains c s = true.
Proof.
  intros H.
  pose proof (split_length c s) as L. rewrite H in L. simpl in L.
  rewrite contains_occurrences.
  destruct (occurrences c s); [lia|reflexivity].
Qed.

(** ** [range] and inclusive intervals *)

Lemma count_up_map (n : nat) :
  forall a, count_up n a = map (fun i => a + Z.of_nat i) (seq 0 n).
Proof.
  induction n as [|n IH]; intros a; [reflexivity|].
  cbn [count_up seq map]. f_equal; [lia|].
  rewrite IH, <- seq_shift, map_map.
  apply map_ext. intros i. lia.
Qed.

Lemma range_inclusive (a b : Z) : range a (b + 1) = inclusive a b.
Proof.
  unfold range, inclusive. rewrite count_up_map.
  replace (b + 1 - a) with (b - a + 1) by lia. reflexivity.
Qed.

Lemma in_count_up (n : nat) :
  forall a k, In k (count_up n a) <-> a <= k < a + Z.of_nat n.
Proof.
  induction n as [|n IH]; intros a k; simpl count_up.
  - simpl. lia.
  - cbn [In]. rewrite IH. lia.
Qed.

Lemma in_inclusive (a b k : Z) : In k (inclusive a b) <-> a <= k <= b.
Proof. unfold inclusive. rewrite in_count_up. lia. Qed.

Lemma inclusive_empty (a b : Z) : b < a -> inclusive a b = [].
Proof.
  intros H. unfold inclusive.
  replace (Z.to_nat (b - a + 1)) with O by lia. reflexivity.
Qed.

Lemma inclusive_length (a b : Z) :
  a <= b -> Z.of_nat (List.length (inclusive a b)) = b - a + 1.
Proof.
  intros H. unfold inclusive. rewrite count_up_map, length_map, length_seq. lia.
Qed.

(** ** One iteration on a well-formed token *)

Lemma parse_part_wellformed (acc : list Z) (part : string) :
  wellformed_token (strip part) = true ->
  parse_part acc part = Ok (acc ++ spec_token_pages (strip part)).
Proof.
  unfold wellformed_token, parse_part, spec_token_pages.
  destruct (split "-" (strip part)) as [|a [|b [|c r]]] eqn:E;
    try discriminate.
  - intros Ha. destruct (split_one _ _ _ E) as [Hc ->].
    rewrite Hc, (int_decimal _ Ha). reflexivity.
  - intros H. apply andb_prop in H. destruct H as [Ha Hb].
    rewrite (split_many _ _ _ _ _ E).
    cbn [unpack_start_end bind].
    rewrite (int_decimal _ Ha). cbn [bind].
    rewrite (int_decimal _ Hb). cbn [bind].
    rewrite range_inclusive. reflexivity.
Qed.

Lemma for_each_parse_wellformed (parts : list string) :
  forall acc,
    forallb wellformed_token (map strip parts) = true ->
    for_each parse_part parts acc
    = Ok (acc ++ flat_map spec_token_pages (map strip parts)).
Proof.
  induction parts as [|p parts IH]; intros acc H; simpl in *.
  - rewrite app_nil_r. reflexivity.
  - apply andb_prop in H. destruct H as [Hp Hr].
    rewrite (parse_part_wellformed acc p Hp). cbn [bind].
    rewrite (IH _ Hr), <- app_assoc. reflexivity.
Qed.

Lemma map_flat_map {A B C : Type} (g : B -> C) (f : A -> list B) (l : list A) :
  map g (flat_map f l) = flat_map (fun x => map g (f x)) l.
Proof.
  induction l as [|x l IH]; simpl; [reflexivity|].
  rewrite map_app, IH. reflexivity.
Qed.

Lemma parse_wellformed (s : string) :
  wellformed_spec s = true -> parse_page_numbers s = Ok (spec_indices s).
Proof.
  unfold wellformed_spec, tokens, parse_page_numbers, spec_indices. intros H.
  rewrite (for_each_parse_wellformed _ [] H). cbn [bind app].
  rewrite map_flat_map. reflexivity.
Qed.

Lemma valid_token_wellformed (tok : string) :
  valid_token tok = true -> wellformed_token tok = true.
Proof.
  unfold valid_token, wellformed_token.
  destruct (split "-" tok) as [|a [|b [|c r]]]; try discriminate; intros H;
    repeat (apply andb_prop in H; destruct H as [H ?]);
    try assumption.
  rewrite H. assumption.
Qed.

Lemma valid_spec_wellformed (s : string) :
  valid_spec s = true -> wellformed_spec s = true.
Proof.
  unfold valid_spec, wellformed_spec. rewrite !forallb_forall.
  intros H tok Hin. apply valid_token_wellformed, H, Hin.
Qed.

(** ** The page-range parser on valid input *)

(** C4: on every valid page-range spec the parser returns the tokens'
    pages in token order, each range expanded to every integer of its
    inclusive interval in ascending order, each single token as one
    integer, one subtracted from every value and duplicates kept;
    "1-3,5" gives [0;1;2;4]. *)
Theorem parse_valid_spec :
  (forall s, valid_spec s = true -> parse_page_numbers s = Ok (spec_indices s))
  /\ parse_page_numbers "1-3,5" = Ok [0; 1; 2; 4]
  /\ parse_page_numbers " 2 , 1-2,2" = Ok [1; 0; 1; 1].
Proof.
  split; [|split; reflexivity].
  intros s H. apply parse_wellformed, valid_spec_wellformed, H.
Qed.

Lemma parse_valid_spec_witness :
  valid_spec "1-3,5" = true
  /\ parse_page_numbers "1-3,5" = Ok (spec_indices "1-3,5").
Proof.
  split; [reflexivity|].
  apply (proj1 parse_valid_spec). reflexivity.
Defined.

(** ** The parser and the interpreter's limits *)

Lemma digits_within_cap (n : nat) :
  Z.of_nat n <= max_str_digits -> digits_over_limit 10 n = false.
Proof.
  intros H. unfold digits_over_limit.
  destruct (Z.ltb_spec max_str_digits (Z.of_nat n)) as [Hlt|_]; [lia|].
  apply andb_false_r.
Qed.

Lemma int_limited_decimal (s : string) :
  is_decimal s = true -> Z.of_nat (String.length s) <= max_str_digits ->
  int_limited s = Ok (decimal_value s).
Proof.
  destruct s as [|c s]; [discriminate|].
  unfold is_decimal. intros Hs Hlen.
  pose proof Hs as Hall. simpl in Hs.
  apply andb_prop in Hs. destruct Hs as [Hc _].
  destruct (decimal_digit_facts c Hc) as (Hsp & _ & Hus & Hm & Hp & _ & _ & _).
  unfold int_limited, int_of_str_limited.
  cbn [lstrip_with]. rewrite Hsp.
  assert (Hsign : take_sign (String c s) = (false, String c s)).
  { unfold take_sign.
    destruct c as [[] [] [] [] [] [] [] []]; try reflexivity; discriminate. }
  rewrite Hsign.
  assert (Hpre : take_prefix 10 (String c s) = String c s).
  { unfold take_prefix.
    destruct c as [[] [] [] [] [] [] [] []]; try reflexivity.
    destruct s; reflexivity. }
  rewrite Hpre.
  rewrite (scan_digits_decimal _ 0 0%nat Hall).
  rewrite digits_within_cap by exact Hlen.
  destruct c as [[] [] [] [] [] [] [] []]; try reflexivity; discriminate.
Qed.

Lemma count_up_length (n : nat) : forall a, List.length (count_up n a) = n.
Proof.
  induction n as [|n IH]; intros a; [reflexivity|].
  cbn [count_up List.length]. rewrite IH. reflexivity.
Qed.

Lemma range_length_inclusive (a b : Z) :
  range_length a (b + 1) 1 = Z.of_nat (List.length (inclusive a b)).
Proof.
  unfold range_length, inclusive. rewrite count_up_length.
  change (0 <? 1) with true. cbv iota.
  destruct (Z.ltb_spec a (b + 1)) as [H|H].
  - rewrite Z.div_1_r. lia.
  - lia.
Qed.

Lemma parse_part_limited_wellformed (list_limit : Z) (acc : list Z)
    (part : string) :
  list_limit <= maxsize ->
  wellformed_token (strip part) = true ->
  forallb (fun a => Z.of_nat (String.length a) <=? max_str_digits)
          (split "-" (strip part)) = true ->
  Z.of_nat (List.length (acc ++ spec_token_pages (strip part))) <= list_limit ->
  parse_part_limited list_limit acc part
  = Ok (acc ++ spec_token_pages (strip part)).
Proof.
  unfold wellformed_token, parse_part_limited, spec_token_pages.
  intros Hmax.
  destruct (split "-" (strip part)) as [|a [|b [|c r]]] eqn:E;
    try discriminate.
  - intros Ha Hcap Hroom. destruct (split_one _ _ _ E) as [Hc ->].
    cbn [forallb] in Hcap. rewrite andb_true_r in Hcap.
    apply Z.leb_le in Hcap.
    rewrite Hc, (int_limited_decimal _ Ha Hcap). cbn [bind].
    unfold append_limited. rewrite length_app in Hroom.
    cbn [List.length] in Hroom.
    destruct (Z.ltb_spec list_limit (Z.of_nat (List.length acc) + 1));
      [lia|reflexivity].
  - intros H Hcap Hroom. apply andb_prop in H. destruct H as [Ha Hb].
    cbn [forallb] in Hcap. rewrite andb_true_r in Hcap.
    apply andb_prop in Hcap. destruct Hcap as [Hca Hcb].
    apply Z.leb_le in Hca. apply Z.leb_le in Hcb.
    rewrite (split_many _ _ _ _ _ E).
    cbn [unpack_start_end_limited bind].
    rewrite (int_limited_decimal _ Ha Hca). cbn [bind].
    rewrite (int_limited_decimal _ Hb Hcb). cbn [bind].
    unfold extend_range_limited. rewrite range_length_inclusive.
    rewrite length_app in Hroom.
    destruct (Z.ltb_spec maxsize
                (Z.of_nat (List.length
                             (inclusive (decimal_value a) (decimal_value b)))));
      [lia|].
    destruct (Z.ltb_spec list_limit
                (Z.of_nat (List.length acc)
                 + Z.of_nat (List.length
                               (inclusive (decimal_value a) (decimal_value b)))));
      [lia|].
    rewrite range_inclusive. reflexivity.
Qed.

Lemma for_each_parse_limited_wellformed (list_limit : Z)
    (parts : list string) :
  list_limit <= maxsize ->
  forall acc,
    forallb wellformed_token (map strip parts) = true ->
    forallb (fun tok =>
               forallb (fun a => Z.of_nat (String.length a) <=? max_str_digits)
                       (split "-" tok))
            (map strip parts) = true ->
    Z.of_nat (List.length (acc ++ flat_map spec_token_pages (map strip parts)))
    <= list_limit ->
    for_each (parse_part_limited list_limit) parts acc
    = Ok (acc ++ flat_map spec_token_pages (map strip parts)).
Proof.
  intros Hmax.
  induction parts as [|p parts IH]; intros acc H Hcap Hroom;
    cbn [map forallb flat_map for_each] in *.
  - rewrite app_nil_r. reflexivity.
  - apply andb_prop in H. destruct H as [Hp Hr].
    apply andb_prop in Hcap. destruct Hcap as [Hcp Hcr].
    rewrite app_assoc in Hroom.
    rewrite (parse_part_limited_wellformed list_limit acc p Hmax Hp Hcp).
    + cbn [bind]. rewrite (IH _ Hr Hcr Hroom), <- app_assoc. reflexivity.
    + rewrite length_app in Hroom. lia.
Qed.

(** The limits only add failures: what the limited conversion and parser
    return, the unlimited ones return too. *)
Lemma int_limited_refines (s : string) (v : Z) :
  int_limited s = Ok v -> int s = Ok v.
Proof.
  unfold int_limited, int_of_str_limited, int, int_of_str.
  destruct (take_sign _) as [neg s1].
  set (s2 := take_prefix 10 s1).
  assert (G : forall X Y : result Z,
             (X = Ok v -> Y = Ok v) ->
             match s2 with
             | String "_" _ => Raise ValueError
             | _ => X
             end = Ok v ->
             match s2 with
             | String "_" _ => Raise ValueError
             | _ => Y
             end = Ok v).
  { intros X Y HXY. destruct s2 as [|c r]; [exact HXY|].
    destruct c as [[] [] [] [] [] [] [] []]; try exact HXY. discriminate. }
  apply G. clear G.
  destruct (scan_digits 10 s2 0 false 0) as [[[w n] rest]|]; [|discriminate].
  destruct (digits_over_limit 10 n); [discriminate|].
  exact (fun K => K).
Qed.

Lemma unpack_limited_refines (pieces : list string) (p : Z * Z) :
  unpack_start_end_limited pieces = Ok p -> unpack_start_end pieces = Ok p.
Proof.
  destruct pieces as [|a [|b [|c r]]]; cbn [unpack_start_end_limited
                                           unpack_start_end].
  - discriminate.
  - destruct (int_limited a); discriminate.
  - destruct (int_limited a) as [x|] eqn:Ea; [|discriminate].
    rewrite (int_limited_refines _ _ Ea). cbn [bind].
    destruct (int_limited b) as [y|] eqn:Eb; [|discriminate].
    rewrite (int_limited_refines _ _ Eb). cbn [bind].
    exact (fun K => K).
  - destruct (int_limited a) as [x|]; [|discriminate]. cbn [bind].
    destruct (int_limited b) as [y|]; [|discriminate]. cbn [bind].
    destruct (int_limited c); discriminate.
Qed.

Lemma parse_part_limited_refines (list_limit : Z) (acc : list Z)
    (part : string) (l : list Z) :
  parse_part_limited list_limit acc part = Ok l -> parse_part acc part = Ok l.
Proof.
  unfold parse_part_limited, parse_part.
  destruct (str_contains "-" (strip part)).
  - destruct (unpack_start_end_limited _) as [[x y]|] eqn:E; [|discriminate].
    rewrite (unpack_limited_refines _ _ E). cbn [bind].
    unfold extend_range_limited.
    destruct (maxsize <? _); [discriminate|].
    destruct (list_limit <? _); [discriminate|].
    exact (fun K => K).
  - destruct (int_limited (strip part)) as [x|] eqn:E; [|discriminate].
    rewrite (int_limited_refines _ _ E). cbn [bind].
    unfold append_limited.
    destruct (list_limit <? _); [discriminate|].
    exact (fun K => K).
Qed.

Lemma parse_limited_refines (list_limit : Z) (s : string) (l : list Z) :
  parse_page_numbers_limited list_limit s = Ok l ->
  parse_page_numbers s = Ok l.
Proof.
  unfold parse_page_numbers_limited, parse_page_numbers.
  generalize (@nil Z). induction (split "," s) as [|p parts IH]; intros acc;
    cbn [for_each].
  - exact (fun K => K).
  - destruct (parse_part_limited list_limit acc p) as [acc'|] eqn:E;
      [|discriminate].
    rewrite (parse_part_limited_refines _ _ _ _ E). cbn [bind]. apply IH.
Qed.

(** C7, as amended: no bounds are checked against any document.  Whenever
    every token is a decimal literal or two decimal literals around one
    hyphen, no literal has more digits than [int()] converts (4300) and the
    interpreter can hold a list as long as the result, parsing succeeds
    with the pages of the tokens, one subtracted from each, whatever the
    values are: no page count enters the computation, and zero is
    accepted, "0" giving the negative index -1. *)
Theorem parse_no_bounds_check_within_limits :
  (forall list_limit s,
     list_limit <= maxsize ->
     wellformed_spec s = true ->
     literals_within_cap s = true ->
     Z.of_nat (List.length (spec_indices s)) <= list_limit ->
     parse_page_numbers_limited list_limit s = Ok (spec_indices s))
  /\ (forall list_limit,
        1 <= list_limit <= maxsize ->
        parse_page_numbers_limited list_limit "0" = Ok [-1])
  /\ (forall list_limit,
        2 <= list_limit <= maxsize ->
        parse_page_numbers_limited list_limit
          "0-0,123456789012345678901234567890"
        = Ok [-1; 123456789012345678901234567889]).
Proof.
  assert (G : forall list_limit s,
             list_limit <= maxsize ->
             wellformed_spec s = true ->
             literals_within_cap s = true ->
             Z.of_nat (List.length (spec_indices s)) <= list_limit ->
             parse_page_numbers_limited list_limit s = Ok (spec_indices s)).
  { unfold wellformed_spec, literals_within_cap, tokens,
      parse_page_numbers_limited, spec_indices.
    intros list_limit s Hmax Hw Hcap Hroom.
    rewrite <- map_flat_map, length_map in Hroom.
    rewrite (for_each_parse_limited_wellformed list_limit _ Hmax [] Hw Hcap)
      by exact Hroom.
    cbn [bind app]. rewrite map_flat_map. reflexivity. }
  split; [exact G|split].
  - intros list_limit [Hlo Hhi].
    rewrite (G list_limit "0" Hhi); [reflexivity..|].
    change (Z.of_nat (List.length (spec_indices "0"))) with 1. exact Hlo.
  - intros list_limit [Hlo Hhi].
    rewrite (G list_limit _ Hhi); [reflexivity..|].
    change (Z.of_nat
              (List.length
                 (spec_indices "0-0,123456789012345678901234567890")))
      with 2.
    exact Hlo.
Qed.

Lemma parse_no_bounds_check_within_limits_witness :
  wellformed_spec "0" = true
  /\ parse_page_numbers_limited 1000 "0" = Ok (spec_indices "0").
Proof.
  split; [reflexivity|].
  apply (proj1 parse_no_bounds_check_within_limits 1000 "0");
    [unfold maxsize; lia | reflexivity | reflexivity
    | vm_compute; discriminate].
Defined.

(** C7 as stated fails: the magnitude of the values alone makes the parser
    raise on well-formed input.  A literal of 4301 digits is beyond what
    [int()] converts (ValueError), and the range "1-100000000000000000000"
    is longer than any sequence (OverflowError), however much memory there
    is. *)
Lemma wellformed_spec_beyond_limits :
  (wellformed_spec (repeat_char "1" 4301) = true
   /\ forall list_limit,
        parse_page_numbers_limited list_limit (repeat_char "1" 4301)
        = Raise ValueError)
  /\ (wellformed_spec "1-100000000000000000000" = true
      /\ forall list_limit,
           parse_page_numbers_limited list_limit "1-100000000000000000000"
           = Raise OverflowError).
Proof.
  split; split.
  - vm_compute. reflexivity.
  - intros list_limit. vm_compute. reflexivity.
  - reflexivity.
  - intros list_limit. vm_compute. reflexivity.
Qed.

(** ** Inverted ranges *)

Lemma parse_part_inverted (acc : list Z) (part a b : string) :
  strip part = (a ++ String "-" b)%string ->
  is_decimal a = true -> is_decimal b = true ->
  decimal_value b < decimal_value a ->
  parse_part acc part = Ok acc.
Proof.
  intros E Ha Hb Hlt.
  assert (Hsplit : split "-" (strip part) = [a; b]).
  { rewrite E, split_at_first, split_absent; try reflexivity;
      apply decimal_no_char; try reflexivity; apply is_decimal_all; assumption. }
  rewrite parse_part_wellformed.
  - unfold spec_token_pages. rewrite Hsplit, inclusive_empty by assumption.
    apply f_equal, app_nil_r.
  - unfold wellformed_token. rewrite Hsplit, Ha, Hb. reflexivity.
Qed.

(** C1, as the code has it: a range token whose first integer is greater
    than its second is not rejected.  It adds no page to the list and the
    loop goes on with the tokens that follow; "3-1" gives the empty list. *)
Theorem inverted_range_adds_nothing :
  forall (part a b : string) (rest : list string) (acc : list Z),
    strip part = (a ++ String "-" b)%string ->
    is_decimal a = true -> is_decimal b = true ->
    decimal_value b < decimal_value a ->
    for_each parse_part (part :: rest) acc = for_each parse_part rest acc
    /\ parse_page_numbers "3-1" = Ok []
    /\ parse_page_numbers "3-1,5" = Ok [4].
Proof.
  intros part a b rest acc E Ha Hb Hlt.
  split; [|split; reflexivity].
  cbn [for_each]. rewrite (parse_part_inverted acc part a b E Ha Hb Hlt).
  reflexivity.
Qed.

Lemma inverted_range_adds_nothing_witness :
  for_each parse_part [" 7-2 "; "5"] [0] = for_each parse_part ["5"] [0].
Proof.
  apply (inverted_range_adds_nothing " 7-2 " "7" "2" ["5"] [0]);
    [reflexivity | reflexivity | reflexivity | vm_compute; reflexivity].
Defined.

(** C1 as stated fails: the inverted range "3-1" is parsed, to the empty
    list, and no exception is raised. *)
Lemma inverted_range_is_accepted :
  parse_page_numbers "3-1" = Ok [] /\ parse_page_numbers "3-1" <> Raise ValueError.
Proof. split; [reflexivity|discriminate]. Qed.

(** ** Malformed input *)

Lemma int_of_str_raises (base : Z) (s : string) (e : exn) :
  int_of_str base s = Raise e -> e = ValueError.
Proof.
  unfold int_of_str.
  destruct (take_sign _) as [neg s1].
  set (s2 := take_prefix base s1).
  assert (H : forall r : result Z,
             match scan_digits base s2 0 false 0 with
             | None => Raise ValueError
             | Some (v, n, rest) =>
                 match n, lstrip_with is_int_space rest with
                 | S _, EmptyString => Ok (if neg then - v else v)
                 | _, _ => Raise ValueError
                 end
             end = Raise e -> e = ValueError).
  { intros _. destruct (scan_digits base s2 0 false 0) as [[[v n] rest]|];
      [|congruence].
    destruct n; [congruence|].
    destruct (lstrip_with is_int_space rest); congruence. }
  specialize (H (Ok 0)).
  destruct s2 as [|c s2']; [exact H|].
  destruct c as [[] [] [] [] [] [] [] []]; try exact H; congruence.
Qed.

Lemma int_raise_or_ok (s : string) :
  int s = Raise ValueError \/ exists v, int s = Ok v.
Proof.
  destruct (int s) as [v|e] eqn:E; [right; eauto|left].
  apply int_of_str_raises in E. subst. reflexivity.
Qed.

Lemma unpack_three_raises (a b c : string) (r : list string) :
  unpack_start_end (a :: b :: c :: r) = Raise ValueError.
Proof.
  cbn [unpack_start_end].
  destruct (int_raise_or_ok a) as [->|[x ->]]; [reflexivity|]. cbn [bind].
  destruct (int_raise_or_ok b) as [->|[y ->]]; [reflexivity|]. cbn [bind].
  destruct (int_raise_or_ok c) as [->|[z ->]]; reflexivity.
Qed.

Lemma unpack_raises (pieces : list string) (e : exn) :
  unpack_start_end pieces = Raise e -> e = ValueError.
Proof.
  destruct pieces as [|a [|b [|c r]]].
  - cbn [unpack_start_end]. congruence.
  - cbn [unpack_start_end].
    destruct (int_raise_or_ok a) as [->|[x ->]]; cbn [bind]; congruence.
  - cbn [unpack_start_end].
    destruct (int_raise_or_ok a) as [->|[x ->]]; cbn [bind]; [congruence|].
    destruct (int_raise_or_ok b) as [->|[y ->]]; cbn [bind]; congruence.
  - rewrite unpack_three_raises. congruence.
Qed.

Lemma parse_part_raises (acc : list Z) (part : string) (e : exn) :
  parse_part acc part = Raise e -> e = ValueError.
Proof.
  unfold parse_part.
  destruct (str_contains "-" (strip part)).
  - destruct (unpack_start_end _) as [[x y]|e'] eqn:E; cbn [bind];
      [discriminate|].
    intros H. inversion H; subst. eapply unpack_raises, E.
  - destruct (int_raise_or_ok (strip part)) as [->|[x ->]]; cbn [bind];
      congruence.
Qed.

Lemma parse_part_malformed (acc : list Z) (part : string) :
  malformed (strip part) -> parse_part acc part = Raise ValueError.
Proof.
  unfold parse_part. set (tok := strip part). clearbody tok.
  intros [->|[(piece & Hin & Hp)|Hh]].
  - reflexivity.
  - destruct (split "-" tok) as [|a [|b [|c r]]] eqn:E.
    + destruct Hin.
    + destruct (split_one _ _ _ E) as [Hc ->]. rewrite Hc.
      destruct Hin as [->|[]]. rewrite Hp. reflexivity.
    + rewrite (split_many _ _ _ _ _ E). cbn [unpack_start_end].
      destruct Hin as [->|[->|[]]].
      * rewrite Hp. reflexivity.
      * destruct (int_raise_or_ok a) as [->|[x ->]]; [reflexivity|].
        cbn [bind]. rewrite Hp. reflexivity.
    + rewrite (split_many _ _ _ _ _ E), unpack_three_raises. reflexivity.
  - pose proof (split_length "-" tok) as L.
    destruct (split "-" tok) as [|a [|b [|c r]]] eqn:E; simpl in L; try lia.
    rewrite (split_many _ _ _ _ _ E), unpack_three_raises. reflexivity.
Qed.

Lemma for_each_parse_malformed (parts : list string) :
  forall acc part,
    In part parts -> malformed (strip part) ->
    for_each parse_part parts acc = Raise ValueError.
Proof.
  induction parts as [|p parts IH]; intros acc part Hin Hbad; [destruct Hin|].
  cbn [for_each].
  destruct (parse_part acc p) as [acc'|e] eqn:E; cbn [bind].
  - destruct Hin as [->|Hin].
    + rewrite (parse_part_malformed acc part Hbad) in E. discriminate.
    + eapply IH; eassumption.
  - apply parse_part_raises in E. subst. reflexivity.
Qed.

(** C6: an input that is empty, or has a token that is empty, has a piece
    that is no integer for [int()], or has more than one hyphen, makes the
    parser raise (ValueError); the result is then the exception alone, no
    list.  "" and "a-b" raise. *)
Theorem malformed_input_raises :
  forall s,
    s = EmptyString \/ (exists tok, In tok (tokens s) /\ malformed tok) ->
    parse_page_numbers s = Raise ValueError
    /\ parse_page_numbers "" = Raise ValueError
    /\ parse_page_numbers "a-b" = Raise ValueError.
Proof.
  intros s H. split; [|split; reflexivity].
  assert (Hex : exists tok, In tok (tokens s) /\ malformed tok).
  { destruct H as [->|H]; [|exact H].
    exists EmptyString. split; [left; reflexivity|left; reflexivity]. }
  destruct Hex as (tok & Hin & Hbad).
  unfold tokens in Hin. apply in_map_iff in Hin.
  destruct Hin as (part & <- & Hin).
  unfold parse_page_numbers.
  rewrite (for_each_parse_malformed _ [] part Hin Hbad). reflexivity.
Qed.

Lemma malformed_input_raises_witness :
  parse_page_numbers "1,2-3-4" = Raise ValueError.
Proof.
  apply (malformed_input_raises "1,2-3-4").
  right. exists "2-3-4". split.
  - right. left. reflexivity.
  - right. right. simpl. lia.
Defined.

(** *** What [int()] takes for an integer

    A character other than a decimal digit, a sign, an underscore or one
    of the spaces [int()] skips makes the conversion fail wherever it
    stands, so a token with such a character (other than the hyphens, at
    which it is cut) is [non_numeric]. *)

Lemma lstrip_with_keeps (p : ascii -> bool) (c : ascii) (s : string) :
  p c = false -> str_contains c s = true ->
  str_contains c (lstrip_with p s) = true.
Proof.
  intros Hp. induction s as [|d s IH]; simpl; intros H; [discriminate|].
  destruct (p d) eqn:Hd.
  - apply IH. destruct (Ascii.eqb_spec d c) as [->|]; [congruence|exact H].
  - exact H.
Qed.

Lemma scan_digits_keeps (c : ascii) (s : string) :
  literal_char c = false ->
  forall acc prev n v n' rest,
    scan_digits 10 s acc prev n = Some (v, n', rest) ->
    str_contains c s = true -> str_contains c rest = true.
Proof.
  intros Hc.
  assert (Hus : Ascii.eqb c "_" = false).
  { unfold literal_char in Hc. repeat (apply orb_false_iff in Hc; destruct Hc as [Hc ?]).
    rewrite Ascii.eqb_sym. assumption. }
  assert (Hdig : match digit_value c with Some d => d <? 10 | None => false end = false).
  { pose proof (for_all_chars (fun c => implb (negb (literal_char c))
       (negb match digit_value c with Some d => d <? 10 | None => false end))
       eq_refl c) as H.
    cbv beta in H. rewrite Hc in H. simpl in H.
    apply negb_true_iff in H. exact H. }
  induction s as [|d s IH]; intros acc prev n v n' rest Hscan Hin;
    [discriminate|].
  cbn [scan_digits] in Hscan. cbn [str_contains] in Hin.
  destruct (Ascii.eqb_spec d c) as [->|Hne].
  - rewrite Hus in Hscan.
    destruct (digit_value c) as [dv|].
    + rewrite Hdig in Hscan. destruct prev; [discriminate|].
      inversion Hscan; subst. simpl. rewrite Ascii.eqb_refl. reflexivity.
    + destruct prev; [discriminate|].
      inversion Hscan; subst. simpl. rewrite Ascii.eqb_refl. reflexivity.
  - simpl in Hin.
    destruct (Ascii.eqb d "_").
    + destruct prev; [discriminate|]. eapply IH; eassumption.
    + destruct (digit_value d) as [dv|].
      * destruct (dv <? 10); [eapply IH; eassumption|].
        destruct prev; [discriminate|]. inversion Hscan; subst.
        simpl. rewrite Hin. apply orb_true_r.
      * destruct prev; [discriminate|]. inversion Hscan; subst.
        simpl. rewrite Hin. apply orb_true_r.
Qed.

Lemma take_sign_keeps (c : ascii) (s : string) :
  literal_char c = false -> str_contains c s = true ->
  str_contains c (snd (take_sign s)) = true.
Proof.
  intros Hc Hin. unfold literal_char in Hc.
  repeat (apply orb_false_iff in Hc; destruct Hc as [Hc ?]).
  destruct s as [|d s]; [discriminate|].
  unfold take_sign.
  destruct d as [[] [] [] [] [] [] [] []]; try exact Hin;
    cbn [snd]; cbn [str_contains] in Hin;
    apply orb_true_iff in Hin; destruct Hin as [Hin|Hin];
    try exact Hin; congruence.
Qed.

Lemma take_prefix_decimal (s : string) : take_prefix 10 s = s.
Proof.
  destruct s as [|a [|b r]]; try reflexivity;
    unfold take_prefix;
    destruct a as [[] [] [] [] [] [] [] []]; reflexivity.
Qed.

Lemma int_rejects_foreign (c : ascii) (s : string) :
  literal_char c = false -> str_contains c s = true ->
  int s = Raise ValueError.
Proof.
  intros Hc Hin.
  assert (Hsp : is_int_space c = false).
  { unfold literal_char in Hc.
    repeat (apply orb_false_iff in Hc; destruct Hc as [Hc ?]). assumption. }
  pose proof (take_sign_keeps c _ Hc (lstrip_with_keeps _ c s Hsp Hin)) as H1.
  unfold int, int_of_str.
  destruct (take_sign (lstrip_with is_int_space s)) as [neg s1].
  cbn [snd] in H1. rewrite take_prefix_decimal.
  assert (H : match scan_digits 10 s1 0 false 0 with
              | None => Raise ValueError
              | Some (v, n, rest) =>
                  match n, lstrip_with is_int_space rest with
                  | S _, EmptyString => Ok (if neg then - v else v)
                  | _, _ => Raise ValueError
                  end
              end = Raise ValueError).
  { destruct (scan_digits 10 s1 0 false 0) as [[[v n] rest]|] eqn:E;
      [|reflexivity].
    pose proof (scan_digits_keeps c s1 Hc _ _ _ _ _ _ E H1) as H2.
    apply (lstrip_with_keeps _ c rest Hsp) in H2.
    destruct (lstrip_with is_int_space rest); [discriminate|].
    destruct n; reflexivity. }
  destruct s1 as [|d s1']; [exact H|].
  destruct d as [[] [] [] [] [] [] [] []]; try exact H; reflexivity.
Qed.

Lemma split_piece_with (sep c : ascii) (s : string) :
  Ascii.eqb c sep = false -> str_contains c s = true ->
  exists piece, In piece (split sep s) /\ str_contains c piece = true.
Proof.
  intros Hne. induction s as [|d s IH]; intros Hin; [discriminate|].
  cbn [str_contains] in Hin. cbn [split].
  destruct (Ascii.eqb_spec d sep) as [->|Hd].
  - rewrite Ascii.eqb_sym, Hne in Hin. simpl in Hin.
    destruct (IH Hin) as (piece & Hp & Hc).
    exists piece. split; [right; exact Hp|exact Hc].
  - pose proof (split_not_nil sep s) as Hnn.
    destruct (split sep s) as [|h t] eqn:E; [congruence|].
    apply orb_true_iff in Hin. destruct Hin as [Hin|Hin].
    + exists (String d h). split; [left; reflexivity|].
      simpl. rewrite Hin. reflexivity.
    + destruct (IH Hin) as (piece & Hp & Hc).
      destruct Hp as [<-|Hp].
      * exists (String d h). split; [left; reflexivity|].
        simpl. rewrite Hc. apply orb_true_r.
      * exists piece. split; [right; exact Hp|exact Hc].
Qed.

(** A token holding a letter, or any other character that cannot stand in
    an integer, is not numeric. *)
Lemma foreign_char_non_numeric (c : ascii) (tok : string) :
  literal_char c = false -> str_contains c tok = true -> non_numeric tok.
Proof.
  intros Hc Hin.
  assert (Hne : Ascii.eqb c "-" = false).
  { unfold literal_char in Hc.
    repeat (apply orb_false_iff in Hc; destruct Hc as [Hc ?]).
    rewrite Ascii.eqb_sym. assumption. }
  destruct (split_piece_with "-" c tok Hne Hin) as (piece & Hp & Hcp).
  exists piece. split; [exact Hp|].
  eapply int_rejects_foreign; eassumption.
Qed.

(** ** [int(s, 16)] on the slices of [hex_to_rgba] *)

Lemma int16_singles : forall a, int16_single_check a = true.
Proof. apply for_all_chars. vm_compute. reflexivity. Qed.

Lemma int16_pairs : forall a b, int16_pair_check a b = true.
Proof. apply for_all_pairs. vm_compute. reflexivity. Qed.

Lemma short_string_cases (s : string) :
  (String.length s <= 2)%nat ->
  s = EmptyString \/ (exists a, s = String a EmptyString)
  \/ (exists a b, s = String a (String b EmptyString)).
Proof.
  destruct s as [|a [|b [|c r]]]; simpl; intros H.
  - left. reflexivity.
  - right. left. eauto.
  - right. right. eauto.
  - lia.
Qed.

Lemma int16_checked_inv (s : string) (first : ascii) (both : bool) (value : Z) :
  int16_checked s first both value = true ->
  (short_hex_literal s = true /\
   exists v, int_of_str 16 s = Ok v /\ -15 <= v <= 255
             /\ (v < 0 -> first = "-"%char) /\ (both = true -> v = value))
  \/ (short_hex_literal s = false /\ int_of_str 16 s = Raise ValueError).
Proof.
  unfold int16_checked.
  destruct (int_of_str 16 s) as [v|e] eqn:E; intros H.
  - left.
    repeat (apply andb_prop in H; destruct H as [H ?]).
    split; [assumption|]. exists v. repeat split; try lia.
    + intros Hneg.
      assert (Hb : (v <? 0) = true) by (apply Z.ltb_lt; exact Hneg).
      rewrite Hb in *. simpl in *. apply Ascii.eqb_eq. assumption.
    + intros ->. simpl in *. lia.
  - right. apply negb_true_iff in H. split; [exact H|].
    apply int_of_str_raises in E. subst. reflexivity.
Qed.

Lemma int16_short (s : string) :
  (String.length s <= 2)%nat ->
  (short_hex_literal s = true /\
   exists v, int_of_str 16 s = Ok v /\ -15 <= v <= 255
             /\ (v < 0 -> str_contains "-" s = true))
  \/ (short_hex_literal s = false /\ int_of_str 16 s = Raise ValueError).
Proof.
  intros H.
  destruct (short_string_cases s H) as [->|[[a ->]|[a [b ->]]]].
  - right. split; reflexivity.
  - destruct (int16_checked_inv _ _ _ _ (int16_singles a))
      as [(Hs & v & Hv & Hr & Hn & _)|Hf]; [left|right; exact Hf].
    split; [exact Hs|]. exists v. repeat split; try lia; try assumption.
    intros Hneg. rewrite (Hn Hneg). reflexivity.
  - destruct (int16_checked_inv _ _ _ _ (int16_pairs a b))
      as [(Hs & v & Hv & Hr & Hn & _)|Hf]; [left|right; exact Hf].
    split; [exact Hs|]. exists v. repeat split; try lia; try assumption.
    intros Hneg. rewrite (Hn Hneg). reflexivity.
Qed.

Lemma int16_hex_pair (a b : ascii) :
  is_hex_digit a = true -> is_hex_digit b = true ->
  int_of_str 16 (String a (String b EmptyString)) = Ok (channel_value a b).
Proof.
  intros Ha Hb.
  destruct (int16_checked_inv _ _ _ _ (int16_pairs a b))
    as [(_ & v & Hv & _ & _ & Hval)|[Hf _]].
  - rewrite Hv, Hval; [reflexivity|]. rewrite Ha, Hb. reflexivity.
  - simpl in Hf. rewrite Ha, Hb in Hf. discriminate.
Qed.

Lemma substring_length (i n : nat) (s : string) :
  (String.length (substring i n s) <= n)%nat.
Proof.
  revert i n. induction s as [|c s IH]; intros [|i] [|n]; simpl; try lia.
  - specialize (IH 0%nat n). lia.
  - apply (IH i 0%nat).
  - apply (IH i (S n)).
Qed.

Lemma slice_short (i j : nat) (s : string) :
  (j - i <= 2)%nat -> (String.length (slice i j s) <= 2)%nat.
Proof.
  intros H. unfold slice. pose proof (substring_length i (j - i) s). lia.
Qed.

(** ** [hex_to_rgba] *)

Lemma hex_to_rgba_cases (s : string) :
  let t := lstrip "#" s in
  (short_hex_literal (slice 0 2 t) && short_hex_literal (slice 2 4 t)
   && short_hex_literal (slice 4 6 t) = true
   /\ exists r g b : Z,
       hex_to_rgba s = Ok (r # 255, g # 255, b # 255)%Q
       /\ int_of_str 16 (slice 0 2 t) = Ok r
       /\ int_of_str 16 (slice 2 4 t) = Ok g
       /\ int_of_str 16 (slice 4 6 t) = Ok b)
  \/ (short_hex_literal (slice 0 2 t) && short_hex_literal (slice 2 4 t)
      && short_hex_literal (slice 4 6 t) = false
      /\ hex_to_rgba s = Raise ValueError).
Proof.
  intros t. unfold hex_to_rgba. fold t.
  destruct (int16_short _ (slice_short 0 2 t ltac:(simpl; lia))) as [(H0 & r & Hr & _)|[H0 Hr]];
    rewrite H0, Hr; cbn [bind andb]; [|right; split; reflexivity].
  destruct (int16_short _ (slice_short 2 4 t ltac:(simpl; lia))) as [(H2 & g & Hg & _)|[H2 Hg]];
    rewrite H2, Hg; cbn [bind andb]; [|right; split; reflexivity].
  destruct (int16_short _ (slice_short 4 6 t ltac:(simpl; lia))) as [(H4 & b & Hb & _)|[H4 Hb]];
    rewrite H4, Hb; cbn [bind andb]; [|right; split; reflexivity].
  left. split; [reflexivity|]. exists r, g, b. repeat split; reflexivity.
Qed.

Lemma short_hex_literal_chars (s : string) :
  short_hex_literal s = true -> all_chars hex_literal_char s = true.
Proof.
  unfold hex_literal_char.
  destruct s as [|a [|b [|c r]]]; cbn [short_hex_literal all_chars];
    try discriminate.
  - intros ->. reflexivity.
  - destruct (is_hex_digit a), (is_hex_digit b), (is_sign a),
      (is_int_space a), (is_int_space b), (is_sign b); cbn [andb orb];
      try reflexivity; discriminate.
Qed.

Lemma substring_empty (i n : nat) (s : string) :
  (String.length s <= i)%nat -> substring i n s = EmptyString.
Proof.
  revert i n. induction s as [|c s IH]; intros [|i] n; simpl; intros H.
  - destruct n; reflexivity.
  - reflexivity.
  - lia.
  - apply IH. lia.
Qed.

Lemma hex_to_rgba_short (s : string) :
  (String.length (lstrip "#" s) < 5)%nat -> hex_to_rgba s = Raise ValueError.
Proof.
  intros H.
  destruct (hex_to_rgba_cases s) as [(Hok & _)|[_ Hf]]; [|exact Hf].
  unfold slice in Hok. rewrite (substring_empty 4) in Hok by lia.
  rewrite andb_false_r in Hok. discriminate.
Qed.

Lemma hex_to_rgba_bad_char (s : string) (i : nat) (c : ascii) :
  (i < 6)%nat -> String.get i (lstrip "#" s) = Some c ->
  hex_literal_char c = false -> hex_to_rgba s = Raise ValueError.
Proof.
  intros Hi Hget Hc.
  destruct (hex_to_rgba_cases s) as [(Hok & _)|[_ Hf]]; [|exact Hf].
  exfalso.
  apply andb_prop in Hok. destruct Hok as [Hok H4].
  apply andb_prop in Hok. destruct Hok as [H0 H2].
  apply short_hex_literal_chars in H0, H2, H4.
  unfold slice in *.
  destruct (lstrip "#" s) as [|c0 [|c1 [|c2 [|c3 [|c4 [|c5 r]]]]]];
    do 6 (try destruct i as [|i]); try lia;
    simpl in Hget; try discriminate; inversion Hget; subst;
    simpl in H0, H2, H4; rewrite Hc in *; simpl in *;
    try discriminate;
    rewrite ?andb_false_r in *; discriminate.
Qed.

(** C3, as the code has it: after every leading '#' is dropped, the
    conversion reads the slices at offsets 0, 2 and 4 and nothing past the
    sixth character.  It raises (ValueError) exactly when one of the three
    slices is not a base-16 literal of at most two characters; so it raises
    when fewer than five characters are left, and when one of the first six
    is neither a hex digit nor a sign nor a space.  The result is then the
    exception alone; "#ZZZZZZ" and "#FFF" raise. *)
Theorem hex_to_rgba_failure :
  forall s,
    let t := lstrip "#" s in
    (hex_to_rgba s = Raise ValueError <->
     short_hex_literal (slice 0 2 t) && short_hex_literal (slice 2 4 t)
     && short_hex_literal (slice 4 6 t) = false)
    /\ ((String.length t < 5)%nat -> hex_to_rgba s = Raise ValueError)
    /\ (forall i c, (i < 6)%nat -> String.get i t = Some c ->
                    hex_literal_char c = false ->
                    hex_to_rgba s = Raise ValueError)
    /\ hex_to_rgba "#ZZZZZZ" = Raise ValueError
    /\ hex_to_rgba "#FFF" = Raise ValueError.
Proof.
  intros s t. split; [|split; [|split; [|split; reflexivity]]].
  - destruct (hex_to_rgba_cases s) as [(Hok & r & g & b & Hv & _)|[Hno Hf]];
      fold t in Hok || fold t in Hno.
    + rewrite Hv, Hok. split; discriminate.
    + rewrite Hf, Hno. split; reflexivity.
  - apply hex_to_rgba_short.
  - intros i c. apply hex_to_rgba_bad_char.
Qed.

Lemma hex_to_rgba_failure_witness :
  hex_to_rgba "##12G456" = Raise ValueError.
Proof.
  apply (proj1 (proj2 (proj2 (hex_to_rgba_failure "##12G456"))) 2%nat "G"%char);
    [lia | reflexivity | reflexivity].
Defined.

(** C3 as stated fails: a string that is not six hex digits after one
    optional '#' can be converted.  Eight digits are cut to six, five
    digits give a one-digit blue channel, and a second '#' is dropped. *)
Lemma hex_to_rgba_accepts_other_lengths :
  is_hex_color "FFFFFFFF" = false
  /\ hex_to_rgba "FFFFFFFF" = Ok (255 # 255, 255 # 255, 255 # 255)%Q
  /\ is_hex_color "FFFFF" = false
  /\ hex_to_rgba "FFFFF" = Ok (255 # 255, 255 # 255, 15 # 255)%Q
  /\ is_hex_color "##FFFFFF" = false
  /\ hex_to_rgba "##FFFFFF" = Ok (255 # 255, 255 # 255, 255 # 255)%Q.
Proof. repeat split; reflexivity. Qed.

Lemma strip_optional_hash_cases (s : string) :
  s = String "#" (strip_optional_hash s)
  \/ (strip_optional_hash s = s /\ forall r, s <> String "#" r).
Proof.
  destruct s as [|c r]; [right; split; [reflexivity|discriminate]|].
  destruct (Ascii.eqb_spec c "#") as [->|Hne].
  - left. reflexivity.
  - right. split; [|congruence].
    unfold strip_optional_hash.
    destruct c as [[] [] [] [] [] [] [] []]; try reflexivity.
    congruence.
Qed.

Lemma lstrip_hash_hex (c : ascii) (r : string) :
  is_hex_digit c = true -> lstrip "#" (String c r) = String c r.
Proof.
  intros H. unfold lstrip. cbn [lstrip_with str_contains].
  pose proof (for_all_chars
    (fun c => implb (is_hex_digit c) (negb (Ascii.eqb "#" c))) eq_refl c) as F.
  cbv beta in F. rewrite H in F.
  destruct (Ascii.eqb "#" c); [discriminate F|reflexivity].
Qed.

(** C5: on six hex digits, with or without one leading '#', the conversion
    returns the three two-digit channel values, each over 255; "#FFFFFF"
    gives (1, 1, 1) and "000000" gives (0, 0, 0). *)
Theorem hex_color_channels :
  forall s,
    is_hex_color s = true ->
    let t := strip_optional_hash s in
    hex_to_rgba s
    = Ok (channel_at 0 t # 255, channel_at 2 t # 255, channel_at 4 t # 255)%Q
    /\ (exists r g b, hex_to_rgba "#FFFFFF" = Ok (r, g, b)
                      /\ (r == 1 /\ g == 1 /\ b == 1)%Q)
    /\ (exists r g b, hex_to_rgba "000000" = Ok (r, g, b)
                      /\ (r == 0 /\ g == 0 /\ b == 0)%Q).
Proof.
  intros s H. cbv zeta. split.
  - unfold is_hex_color in H.
    remember (strip_optional_hash s) as t eqn:Et.
    apply andb_prop in H. destruct H as [Hlen Hhex].
    apply Nat.eqb_eq in Hlen.
    destruct t as [|c0 [|c1 [|c2 [|c3 [|c4 [|c5 [|c6 r]]]]]]];
      try discriminate.
    cbn [all_chars] in Hhex.
    repeat (apply andb_prop in Hhex; destruct Hhex as [? Hhex]).
    assert (Hl : lstrip "#" s
                 = String c0 (String c1 (String c2 (String c3
                     (String c4 (String c5 EmptyString)))))).
    { destruct (strip_optional_hash_cases s) as [E|[E _]].
      - rewrite E, <- Et.
        change (lstrip "#" (String "#" ?x)) with (lstrip "#" x).
        apply lstrip_hash_hex. assumption.
      - rewrite E in Et. rewrite <- Et. apply lstrip_hash_hex. assumption. }
    unfold hex_to_rgba. rewrite Hl. unfold slice. cbn [substring Nat.sub].
    rewrite !int16_hex_pair by assumption. reflexivity.
  - split.
    + exists (255 # 255)%Q, (255 # 255)%Q, (255 # 255)%Q.
      split; [reflexivity|]. repeat split; reflexivity.
    + exists (0 # 255)%Q, (0 # 255)%Q, (0 # 255)%Q.
      split; [reflexivity|]. repeat split; reflexivity.
Qed.

Lemma hex_color_channels_witness :
  hex_to_rgba "#1a2B3c" = Ok (26 # 255, 43 # 255, 60 # 255)%Q.
Proof.
  apply (hex_color_channels "#1a2B3c"). reflexivity.
Defined.

Lemma contains_substring (c : ascii) (i n : nat) (s : string) :
  str_contains c (substring i n s) = true -> str_contains c s = true.
Proof.
  revert i n. induction s as [|d s IH]; intros [|i] [|n]; simpl; intros H;
    try discriminate.
  - apply orb_true_iff in H. destruct H as [H|H]; [rewrite H; reflexivity|].
    rewrite (IH _ _ H). apply orb_true_r.
  - rewrite (IH _ _ H). apply orb_true_r.
  - rewrite (IH _ _ H). apply orb_true_r.
Qed.

Lemma contains_lstrip_with (p : ascii -> bool) (c : ascii) (s : string) :
  str_contains c (lstrip_with p s) = true -> str_contains c s = true.
Proof.
  induction s as [|d s IH]; simpl; [discriminate|].
  destruct (p d); [|exact (fun H => H)].
  intros H. rewrite (IH H). apply orb_true_r.
Qed.

(** C10, as the code has it: when the conversion succeeds each channel is
    n/255 for an integer n with -15 <= n <= 255, so it lies in
    [-15/255, 1]; a channel is negative only for a slice that is a minus
    sign and a hex digit, so when the string holds no '-' every n is in
    0..255 and every channel in [0, 1]. *)
Theorem hex_to_rgba_channel_range :
  forall s r g b,
    hex_to_rgba s = Ok (r, g, b) ->
    exists nr ng nb : Z,
      r = (nr # 255)%Q /\ g = (ng # 255)%Q /\ b = (nb # 255)%Q
      /\ (-15 <= nr <= 255 /\ -15 <= ng <= 255 /\ -15 <= nb <= 255)
      /\ ((-15 # 255) <= r <= 1 /\ (-15 # 255) <= g <= 1
          /\ (-15 # 255) <= b <= 1)%Q
      /\ (str_contains "-" s = false ->
          (0 <= nr /\ 0 <= ng /\ 0 <= nb)
          /\ (0 <= r <= 1 /\ 0 <= g <= 1 /\ 0 <= b <= 1)%Q).
Proof.
  intros s r g b H. unfold hex_to_rgba in H.
  set (t := lstrip "#" s) in *.
  assert (Hsub : forall i n, str_contains "-" (substring i n t) = true ->
                             str_contains "-" s = true).
  { intros i n Hc. apply contains_substring in Hc.
    apply (contains_lstrip_with _ _ _ Hc). }
  destruct (int16_short _ (slice_short 0 2 t ltac:(simpl; lia)))
    as [(_ & nr & Er & Br & Nr)|[_ Er]]; rewrite Er in H; cbn [bind] in H;
    [|discriminate].
  destruct (int16_short _ (slice_short 2 4 t ltac:(simpl; lia)))
    as [(_ & ng & Eg & Bg & Ng)|[_ Eg]]; rewrite Eg in H; cbn [bind] in H;
    [|discriminate].
  destruct (int16_short _ (slice_short 4 6 t ltac:(simpl; lia)))
    as [(_ & nb & Eb & Bb & Nb)|[_ Eb]]; rewrite Eb in H; cbn [bind] in H;
    [|discriminate].
  inversion H; subst r g b. exists nr, ng, nb.
  split; [reflexivity|]. split; [reflexivity|]. split; [reflexivity|].
  split; [lia|]. split.
  - unfold Qle; simpl. lia.
  - intros Hno.
    assert (0 <= nr /\ 0 <= ng /\ 0 <= nb) as (P1 & P2 & P3).
    { repeat split.
      - destruct (Z_lt_le_dec nr 0) as [Hn|]; [|assumption].
        apply Nr, Hsub in Hn. congruence.
      - destruct (Z_lt_le_dec ng 0) as [Hn|]; [|assumption].
        apply Ng, Hsub in Hn. congruence.
      - destruct (Z_lt_le_dec nb 0) as [Hn|]; [|assumption].
        apply Nb, Hsub in Hn. congruence. }
    split; [lia|]. unfold Qle; simpl. lia.
Qed.

Lemma hex_to_rgba_channel_range_witness :
  exists nr ng nb : Z,
    (26 # 255 = nr # 255 /\ 43 # 255 = ng # 255 /\ 60 # 255 = nb # 255)%Q
    /\ -15 <= nr <= 255 /\ -15 <= ng <= 255 /\ -15 <= nb <= 255.
Proof.
  destruct (hex_to_rgba_channel_range "#1a2B3c" (26 # 255) (43 # 255) (60 # 255)
              eq_refl)
    as (nr & ng & nb & Hr & Hg & Hb & Hn & _).
  exists nr, ng, nb. repeat split; try assumption; lia.
Defined.

(** C10 as stated fails: "-F-F-F" is converted, and each channel is
    -15/255, below zero. *)
Lemma hex_to_rgba_negative_channel :
  hex_to_rgba "-F-F-F" = Ok (-15 # 255, -15 # 255, -15 # 255)%Q
  /\ ~ (0 <= -15 # 255)%Q.
Proof.
  split; [reflexivity|]. unfold Qle; simpl. lia.
Qed.

(** ** The watermark grid *)

Lemma emit_nil (can : Canvas) : emit [] can = can.
Proof. destruct can. unfold emit. simpl. rewrite app_nil_r. reflexivity. Qed.

Lemma emit_emit (a b : list canvas_op) (can : Canvas) :
  emit b (emit a can) = emit (a ++ b) can.
Proof. unfold emit. simpl. rewrite app_assoc. reflexivity. Qed.

Lemma for_each_emit {A : Type} (f : A -> list canvas_op) (xs : list A) :
  forall can,
    for_each (fun can x => Ok (emit (f x) can)) xs can
    = Ok (emit (flat_map f xs) can).
Proof.
  induction xs as [|x xs IH]; intros can; simpl.
  - rewrite emit_nil. reflexivity.
  - rewrite IH, emit_emit. reflexivity.
Qed.

Lemma for_each_rows {A : Type} (f : A -> list canvas_op) (xs : list A) :
  forall can (body : Canvas -> A -> result Canvas),
    (forall can x, body can x = Ok (emit (f x) can)) ->
    for_each body xs can = Ok (emit (flat_map f xs) can).
Proof.
  intros can body Hbody. rewrite <- for_each_emit.
  revert can. induction xs as [|x xs IH]; intros can; simpl; [reflexivity|].
  rewrite Hbody. cbn [bind]. apply IH.
Qed.

Lemma origins_of_app (a b : list canvas_op) :
  origins_of (a ++ b) = origins_of a ++ origins_of b.
Proof. unfold origins_of. apply flat_map_app. Qed.

Lemma origins_of_row (label : string) (x : Z) (ys : list Z) :
  origins_of (flat_map (stamp_tile label x) ys) = map (fun y => (x, y)) ys.
Proof.
  induction ys as [|y ys IH]; simpl; [reflexivity|].
  f_equal. exact IH.
Qed.

Lemma origins_of_tiles (label : string) (xs ys : list Z) :
  origins_of (flat_map (fun x => flat_map (stamp_tile label x) ys) xs)
  = list_prod xs ys.
Proof.
  induction xs as [|x xs IH]; simpl; [reflexivity|].
  rewrite origins_of_app, IH, origins_of_row. reflexivity.
Qed.

(** With steps that are not zero the grid is drawn, tile after tile, at
    the product of the two ranges. *)
Lemma draw_watermark_grid_ok (can : Canvas) (label : string)
    (step_x step_y : Z) (width height : Q) (xs ys : list Z) :
  range3 (-100) (int_of_float width + 100) step_x = Ok xs ->
  range3 (-100) (int_of_float height + 100) step_y = Ok ys ->
  draw_watermark_grid can label step_x step_y width height
  = Ok (emit (flat_map (fun x => flat_map (stamp_tile label x) ys) xs) can)
  /\ tile_origins
       (emit (flat_map (fun x => flat_map (stamp_tile label x) ys) xs) can)
     = tile_origins can ++ list_prod xs ys.
Proof.
  intros Hx Hy. split.
  - unfold draw_watermark_grid. rewrite Hx. cbn [bind].
    apply for_each_rows. intros c x. rewrite Hy. cbn [bind].
    apply for_each_emit.
  - unfold tile_origins, emit. cbn [drawn].
    rewrite origins_of_app, origins_of_tiles. reflexivity.
Qed.

Lemma range3_positive (start stop step : Z) :
  0 < step ->
  exists xs, range3 start stop step = Ok xs
             /\ forall x, In x xs <->
                          exists i, 0 <= i /\ x = start + step * i /\ x < stop.
Proof.
  intros Hs. unfold range3.
  replace (step =? 0) with false by (symmetry; apply Z.eqb_neq; lia).
  eexists. split; [reflexivity|].
  intros x. rewrite in_map_iff. unfold range_length.
  replace (0 <? step) with true by (symmetry; apply Z.ltb_lt; lia).
  destruct (Z.ltb_spec start stop) as [Hlt|Hge].
  - pose proof (Z.div_mod (stop - start - 1) step ltac:(lia)) as Hdm.
    pose proof (Z.mod_pos_bound (stop - start - 1) step Hs) as Hm.
    set (q := (stop - start - 1) / step) in *.
    assert (Hq : 0 <= q) by (apply Z.div_pos; lia).
    split.
    + intros (i & <- & Hi). apply in_seq in Hi.
      exists (Z.of_nat i). split; [lia|]. split; [lia|]. nia.
    + intros (i & Hi & -> & Hb).
      exists (Z.to_nat i). split; [lia|]. apply in_seq. nia.
  - split.
    + intros (i & _ & Hi). simpl in Hi. destruct Hi.
    + intros (i & Hi & -> & Hb). nia.
Qed.

Lemma int_of_float_floor (w : Q) : (0 <= w)%Q -> int_of_float w = Qfloor w.
Proof.
  destruct w as [n d]. unfold Qle, int_of_float, Qfloor. simpl. intros H.
  apply Z.quot_div_nonneg; lia.
Qed.

(** The grid line at or just below a point of the page. *)
Lemma grid_line_below (step : Z) (p extent : Q) :
  0 < step -> (0 <= extent)%Q -> (inject_Z (-100) <= p)%Q -> (p <= extent)%Q ->
  exists x, grid_point step (int_of_float extent) x
            /\ (inject_Z x <= p)%Q /\ (p < inject_Z (x + step))%Q.
Proof.
  intros Hs He Hlo Hhi.
  rewrite (int_of_float_floor extent He).
  set (k := Qfloor p).
  assert (Hk1 : -100 <= k).
  { unfold k. rewrite <- (Qfloor_Z (-100)). apply Qfloor_resp_le, Hlo. }
  assert (Hk2 : k <= Qfloor extent) by (apply Qfloor_resp_le, Hhi).
  pose proof (Z.div_mod (k + 100) step ltac:(lia)) as Hdm.
  pose proof (Z.mod_pos_bound (k + 100) step Hs) as Hm.
  assert (Hq : 0 <= (k + 100) / step) by (apply Z.div_pos; lia).
  exists (-100 + step * ((k + 100) / step)).
  split; [|split].
  - exists ((k + 100) / step). repeat split; try lia.
  - apply Qle_trans with (inject_Z k).
    + rewrite <- Zle_Qle. lia.
    + apply Qfloor_le.
  - apply Qlt_le_trans with (inject_Z (k + 1)).
    + apply Qlt_floor.
    + rewrite <- Zle_Qle. lia.
Qed.

Lemma grid_point_first (step extent : Z) :
  0 <= extent -> grid_point step extent (-100).
Proof. intros H. exists 0. repeat split; lia. Qed.

Lemma grid_point_last (step extent : Z) :
  0 < step -> 0 <= extent ->
  exists x, grid_point step extent x /\ extent + 100 - step <= x.
Proof.
  intros Hs He.
  pose proof (Z.div_mod (extent + 199) step ltac:(lia)) as Hdm.
  pose proof (Z.mod_pos_bound (extent + 199) step Hs) as Hm.
  assert (Hq : 0 <= (extent + 199) / step) by (apply Z.div_pos; lia).
  exists (-100 + step * ((extent + 199) / step)). split.
  - exists ((extent + 199) / step). repeat split; lia.
  - lia.
Qed.

Lemma int_of_float_nonneg (w : Q) : (0 <= w)%Q -> 0 <= int_of_float w.
Proof.
  intros H. rewrite (int_of_float_floor w H), <- (Qfloor_Z 0).
  apply Qfloor_resp_le, H.
Qed.

(** C2, as the code has it: for a page of width and height at least 0 and
    steps 150 and 100, the tiles are drawn at the origins (x, y) with
    x = -100 + 150 i below int(width) + 100 and y = -100 + 100 j below
    int(height) + 100.  They start at (-100, -100); the x values reach
    int(width) - 50 at least, the y values int(height) at least; and every
    point of the page has an origin less than 150 to its left and less
    than 100 below it, so no band wider than a step is left without a
    tile.  On the letter page the module uses the x values reach 650 and
    the y values 800, past 612 and 792. *)
Theorem watermark_grid_origins :
  forall (can : Canvas) (label : string) (w h : Q),
    (0 <= w)%Q -> (0 <= h)%Q ->
    (exists can' fresh,
       draw_watermark_grid can label 150 100 w h = Ok can'
       /\ tile_origins can' = tile_origins can ++ fresh
       /\ (forall x y, In (x, y) fresh <->
                       grid_point 150 (int_of_float w) x
                       /\ grid_point 100 (int_of_float h) y)
       /\ In (-100, -100) fresh
       /\ (exists x y, In (x, y) fresh
                       /\ int_of_float w - 50 <= x /\ int_of_float h <= y)
       /\ (forall px py : Q,
              (inject_Z (-100) <= px)%Q -> (px <= w)%Q ->
              (inject_Z (-100) <= py)%Q -> (py <= h)%Q ->
              exists x y, In (x, y) fresh
                          /\ (inject_Z x <= px)%Q /\ (px < inject_Z (x + 150))%Q
                          /\ (inject_Z y <= py)%Q /\ (py < inject_Z (y + 100))%Q))
    /\ (exists page,
          draw_watermark_grid (mkCanvas letter []) label 150 100
                              (fst letter) (snd letter) = Ok page
          /\ tile_origins page
             = list_prod [-100; 50; 200; 350; 500; 650]
                         [-100; 0; 100; 200; 300; 400; 500; 600; 700; 800]).
Proof.
  intros can label w h Hw Hh. split.
  - destruct (range3_positive (-100) (int_of_float w + 100) 150 ltac:(lia))
      as (xs & Hxs & Hinx).
    destruct (range3_positive (-100) (int_of_float h + 100) 100 ltac:(lia))
      as (ys & Hys & Hiny).
    destruct (draw_watermark_grid_ok can label 150 100 w h xs ys Hxs Hys)
      as [Hdraw Horig].
    pose proof (int_of_float_nonneg w Hw) as HW.
    pose proof (int_of_float_nonneg h Hh) as HH.
    assert (Hin : forall x y, In (x, y) (list_prod xs ys) <->
                    grid_point 150 (int_of_float w) x
                    /\ grid_point 100 (int_of_float h) y).
    { intros x y. rewrite in_prod_iff, Hinx, Hiny. unfold grid_point.
      reflexivity. }
    eexists. exists (list_prod xs ys).
    split; [exact Hdraw|]. split; [exact Horig|]. split; [exact Hin|].
    split; [|split].
    + apply Hin. split; apply grid_point_first; assumption.
    + destruct (grid_point_last 150 (int_of_float w) ltac:(lia) HW)
        as (x & Hx & Hxb).
      destruct (grid_point_last 100 (int_of_float h) ltac:(lia) HH)
        as (y & Hy & Hyb).
      exists x, y. split; [apply Hin; split; assumption|]. lia.
    + intros px py Hpx1 Hpx2 Hpy1 Hpy2.
      destruct (grid_line_below 150 px w ltac:(lia) Hw Hpx1 Hpx2)
        as (x & Hx & Hx1 & Hx2).
      destruct (grid_line_below 100 py h ltac:(lia) Hh Hpy1 Hpy2)
        as (y & Hy & Hy1 & Hy2).
      exists x, y. split; [apply Hin; split; assumption|].
      repeat split; assumption.
  - eexists.
    refine ((fun H => conj (proj1 H) _)
              (draw_watermark_grid_ok (mkCanvas letter []) label 150 100
                 (fst letter) (snd letter) _ _ eq_refl eq_refl)).
    rewrite (proj2 H). reflexivity.
Qed.

Lemma watermark_grid_origins_witness :
  exists can' fresh,
    draw_watermark_grid (mkCanvas (100 # 1, 100 # 1) []) "DRAFT" 150 100
                        (100 # 1) (100 # 1) = Ok can'
    /\ tile_origins can' = tile_origins (mkCanvas (100 # 1, 100 # 1) []) ++ fresh
    /\ In (-100, -100) fresh.
Proof.
  destruct (watermark_grid_origins (mkCanvas (100 # 1, 100 # 1) []) "DRAFT"
              (100 # 1) (100 # 1))
    as [(can' & fresh & Hd & Ho & _ & Hf & _) _].
  - unfold Qle. simpl. lia.
  - unfold Qle. simpl. lia.
  - exists can', fresh. repeat split; assumption.
Defined.

(** C2 as stated fails: on a page 100 wide the tiles are drawn at x = -100
    and x = 50 only, and no origin reaches the page width. *)
Lemma watermark_grid_stops_before_width :
  exists can,
    draw_watermark_grid (mkCanvas (100 # 1, 100 # 1) []) "DRAFT" 150 100
                        (100 # 1) (100 # 1) = Ok can
    /\ tile_origins can
       = [(-100, -100); (-100, 0); (-100, 100); (50, -100); (50, 0); (50, 100)]
    /\ forallb (fun xy => fst xy <? 100) (tile_origins can) = true.
Proof.
  eexists. split; [reflexivity|]. split; reflexivity.
Qed.

Lemma setFillAlpha_ok (a : Q) (can : Canvas) :
  (0 <= a)%Q -> (a <= 1)%Q -> setFillAlpha a can = Ok (emit [SetFillAlpha a] can).
Proof.
  intros H0 H1. unfold setFillAlpha.
  apply Qle_bool_iff in H0, H1. rewrite H0, H1. reflexivity.
Qed.

Lemma setFillAlpha_outside (a : Q) (can : Canvas) :
  (a < 0)%Q \/ (1 < a)%Q -> setFillAlpha a can = Raise ValueError.
Proof.
  intros H. unfold setFillAlpha.
  destruct (Qle_bool 0 a) eqn:E0; [|reflexivity].
  destruct (Qle_bool a 1) eqn:E1; [|reflexivity].
  apply Qle_bool_iff in E0, E1. exfalso.
  destruct H as [H|H]; [apply (Qlt_not_le _ _ H E0)|apply (Qlt_not_le _ _ H E1)].
Qed.

Lemma create_watermark_canvas_origins (label : string) (size : Z)
    (color : string) (alpha : Q) (rgb : Q * Q * Q) :
  hex_to_rgba color = Ok rgb ->
  (0 <= alpha)%Q -> (alpha <= 1)%Q ->
  exists can,
    create_watermark_canvas label size color alpha = Ok can
    /\ pagesize can = letter
    /\ tile_origins can
       = list_prod [-100; 50; 200; 350; 500; 650]
                   [-100; 0; 100; 200; 300; 400; 500; 600; 700; 800].
Proof.
  intros Hc Ha0 Ha1. destruct rgb as [[r g] b].
  unfold create_watermark_canvas. rewrite Hc. cbn [bind].
  rewrite (setFillAlpha_ok alpha _ Ha0 Ha1). cbn [bind].
  match goal with
  | |- context [draw_watermark_grid ?c _ _ _ _ _] =>
      destruct (draw_watermark_grid_ok c label 150 100 (fst letter) (snd letter)
                  _ _ eq_refl eq_refl) as [Hd Ho]
  end.
  rewrite Hd. cbn [bind]. eexists. split; [reflexivity|]. split.
  - reflexivity.
  - unfold tile_origins in *. unfold emit at 1. cbn [drawn].
    rewrite origins_of_app, Ho. reflexivity.
Qed.

(** ** The watermark merge *)

Section Merge_properties.

Variable Page : Type.
Variable merge_page : Page -> Page -> bool -> Page.

Lemma merge_loop (watermark_page : Page) (reader : list Page) :
  forall writer,
    for_each (fun writer page =>
                let page := merge_page page watermark_page false in
                Ok (writer ++ [page])) reader writer
    = Ok (writer ++ map (fun page => merge_page page watermark_page false)
                        reader).
Proof.
  induction reader as [|p reader IH]; intros writer; simpl.
  - rewrite app_nil_r. reflexivity.
  - rewrite IH, <- app_assoc. reflexivity.
Qed.

Lemma merge_watermark_into_pdf_pages (pdf : list Page) (w : Page)
    (more : list Page) :
  merge_watermark_into_pdf Page merge_page pdf (w :: more)
  = Ok (map (fun page => merge_page page w false) pdf).
Proof.
  unfold merge_watermark_into_pdf. cbn [getitem]. simpl.
  apply merge_loop.
Qed.

(** The library's contract for merging under: the merged page paints the
    other page's content first and this page's content, unchanged, after
    it. *)
Variable Op : Type.
Variable content : Page -> list Op.
Hypothesis merge_page_under :
  forall page page2, content (merge_page page page2 false)
                     = content page2 ++ content page.

(** C8: the watermark's first page is merged into every page of the
    document with over = false, so each output page paints the watermark
    first and then the page's own content, which is kept as it was; the
    output has as many pages as the input. *)
Theorem merge_watermark_keeps_pages :
  forall (pdf : list Page) (w : Page) (more : list Page),
  exists out,
    merge_watermark_into_pdf Page merge_page pdf (w :: more) = Ok out
    /\ out = map (fun page => merge_page page w false) pdf
    /\ List.length out = List.length pdf
    /\ forall i page,
         nth_error pdf i = Some page ->
         exists merged,
           nth_error out i = Some merged
           /\ content merged = content w ++ content page.
Proof.
  intros pdf w more. eexists.
  split; [apply merge_watermark_into_pdf_pages|].
  split; [reflexivity|]. split; [apply length_map|].
  intros i page Hi. exists (merge_page page w false).
  split; [|apply merge_page_under].
  rewrite nth_error_map, Hi. reflexivity.
Qed.

End Merge_properties.

Lemma merge_watermark_keeps_pages_witness :
  exists out,
    merge_watermark_into_pdf (list string)
      (fun page page2 over => if over then page ++ page2 else page2 ++ page)
      [["text 1"]; ["text 2"; "figure"]] [["stamp"]] = Ok out
    /\ List.length out = 2%nat.
Proof.
  destruct (merge_watermark_keeps_pages (list string)
              (fun page page2 (over : bool) =>
                 if over then page ++ page2 else page2 ++ page)
              string (fun page => page) (fun page page2 => eq_refl)
              [["text 1"]; ["text 2"; "figure"]] ["stamp"] [])
    as (out & Hout & _ & Hlen & _).
  exists out. split; assumption.
Defined.

(** ** Extraction and the parser *)

Lemma parser_calls_app (a b : list event) :
  parser_calls (a ++ b) = parser_calls a ++ parser_calls b.
Proof. unfold parser_calls. apply flat_map_app. Qed.

Lemma log_of_tbind {A B : Type} (m : traced A) (k : A -> traced B) :
  log_of (tbind m k)
  = match outcome m with
    | Ok a => log_of m ++ log_of (k a)
    | Raise _ => log_of m
    end.
Proof.
  destruct m as [log [a|e]]; simpl; [|reflexivity].
  destruct (k a). reflexivity.
Qed.

Lemma tbind_lift_ok {A B : Type} (a : A) (k : A -> traced B) :
  tbind (lift (Ok a)) k = k a.
Proof. unfold lift, tbind. destruct (k a). reflexivity. Qed.

Lemma tfor_each_no_parser_call {A S : Type} (body : S -> A -> traced S)
    (xs : list A) :
  (forall s x, parser_calls (log_of (body s x)) = []) ->
  forall s, parser_calls (log_of (tfor_each body xs s)) = [].
Proof.
  intros Hbody. induction xs as [|x xs IH]; intros s; [reflexivity|].
  cbn [tfor_each]. rewrite log_of_tbind.
  destruct (outcome (body s x)); [|apply Hbody].
  rewrite parser_calls_app, Hbody, IH. reflexivity.
Qed.

Lemma indexed_body_no_parser_call {S B : Type} (reader : PdfReader)
    (call : PdfPage -> traced B) (step : S -> B -> S) :
  (forall p, parser_calls (log_of (call p)) = []) ->
  forall (s : S) (page : Z),
    parser_calls
      (log_of (p <~ lift (getitem (pages reader) page) ;;
               t <~ call p ;; tret (step s t))) = [].
Proof.
  intros Hcall s page.
  destruct (getitem (pages reader) page) as [p|e]; [|reflexivity].
  rewrite tbind_lift_ok, log_of_tbind.
  destruct (outcome (call p)); [|apply Hcall].
  rewrite parser_calls_app, Hcall. reflexivity.
Qed.

Lemma text_loop_all (mode : extraction_mode) (ps : list PdfPage) :
  forall text,
    tfor_each (fun text page =>
                 t <~ call_extract_text page mode ;;
                 tret ((text ++ " ") ++ t)%string) ps text
    = (map (fun p => TextRead p mode) ps,
       Ok (fold_left (fun text p => ((text ++ " ") ++ page_text p mode)%string)
                     ps text)).
Proof.
  induction ps as [|p ps IH]; intros text; [reflexivity|].
  cbn [tfor_each map fold_left]. unfold call_extract_text at 1.
  cbn [tbind tret]. rewrite IH. reflexivity.
Qed.

Lemma extract_text_all (reader : PdfReader) (mode : extraction_mode) :
  extract_text reader "all" mode
  = (map (fun p => TextRead p mode) (pages reader),
     Ok (fold_left (fun text p => ((text ++ " ") ++ page_text p mode)%string)
                   (pages reader) EmptyString)).
Proof. apply text_loop_all. Qed.

Lemma images_loop_all (ps : list PdfPage) :
  forall images,
    tfor_each (fun images page =>
                 imgs <~ call_images page ;;
                 tret (dict_update images (image_dict imgs))) ps images
    = (map ImagesRead ps,
       Ok (fold_left (fun images p =>
                        dict_update images (image_dict (page_images p)))
                     ps images)).
Proof.
  induction ps as [|p ps IH]; intros images; [reflexivity|].
  cbn [tfor_each map fold_left]. unfold call_images at 1.
  cbn [tbind tret]. rewrite IH. reflexivity.
Qed.

Lemma extract_images_all (reader : PdfReader) :
  extract_images reader "all"
  = (map ImagesRead (pages reader),
     Ok (fold_left (fun images p =>
                      dict_update images (image_dict (page_images p)))
                   (pages reader) [])).
Proof. apply images_loop_all. Qed.

Lemma parser_calls_map_no_call {A : Type} (f : A -> event) (xs : list A) :
  (forall x, parser_calls [f x] = []) -> parser_calls (map f xs) = [].
Proof.
  intros H. induction xs as [|x xs IH]; [reflexivity|].
  change (map f (x :: xs)) with ([f x] ++ map f xs).
  rewrite parser_calls_app, H, IH. reflexivity.
Qed.

Lemma extract_text_parsed (reader : PdfReader) (s : string)
    (mode : extraction_mode) :
  String.eqb s "all" = false ->
  exists rest,
    log_of (extract_text reader s mode) = ParserCalled s :: rest
    /\ parser_calls rest = [].
Proof.
  intros Hs. unfold extract_text. rewrite Hs.
  rewrite log_of_tbind. unfold call_parse_page_numbers at 1 2.
  unfold outcome, log_of at 1 2. cbn [fst snd].
  destruct (parse_page_numbers s) as [pages_|e].
  - eexists. split; [reflexivity|].
    apply tfor_each_no_parser_call. intros text page.
    apply (indexed_body_no_parser_call reader
             (fun p => call_extract_text p plain)
             (fun text t => ((text ++ " ") ++ t)%string)).
    reflexivity.
  - exists []. split; reflexivity.
Qed.

Lemma extract_images_parsed (reader : PdfReader) (s : string) :
  String.eqb s "all" = false ->
  exists rest,
    log_of (extract_images reader s) = ParserCalled s :: rest
    /\ parser_calls rest = [].
Proof.
  intros Hs. unfold extract_images. rewrite Hs.
  rewrite log_of_tbind. unfold call_parse_page_numbers at 1 2.
  unfold outcome, log_of at 1 2. cbn [fst snd].
  destruct (parse_page_numbers s) as [pages_|e].
  - eexists. split; [reflexivity|].
    apply tfor_each_no_parser_call. intros images page.
    apply (indexed_body_no_parser_call reader call_images
             (fun images imgs => dict_update images (image_dict imgs))).
    reflexivity.
  - exists []. split; reflexivity.
Qed.

(** C9: the extraction operations never hand "all" to the parser.  When
    the page specification is "all", text extraction and image extraction
    read every page of the reader, in order, and make no parser call; when
    it is anything else, they call the parser once, first, with that
    specification. *)
Theorem all_is_never_parsed :
  forall (reader : PdfReader) (s : string) (mode : extraction_mode),
    log_of (extract_text reader "all" mode)
    = map (fun p => TextRead p mode) (pages reader)
    /\ log_of (extract_images reader "all") = map ImagesRead (pages reader)
    /\ parser_calls (log_of (extract_text reader s mode))
       = (if String.eqb s "all" then [] else [s])
    /\ parser_calls (log_of (extract_images reader s))
       = (if String.eqb s "all" then [] else [s])
    /\ ~ In "all" (parser_calls (log_of (extract_text reader s mode)))
    /\ ~ In "all" (parser_calls (log_of (extract_images reader s)))
    /\ (s <> "all" ->
        (exists rest, log_of (extract_text reader s mode)
                      = ParserCalled s :: rest)
        /\ (exists rest, log_of (extract_images reader s)
                         = ParserCalled s :: rest)).
Proof.
  intros reader s mode.
  assert (Ht : parser_calls (log_of (extract_text reader s mode))
               = if String.eqb s "all" then [] else [s]).
  { destruct (String.eqb_spec s "all") as [->|Hne].
    - rewrite extract_text_all. cbn [log_of fst].
      apply parser_calls_map_no_call. reflexivity.
    - destruct (extract_text_parsed reader s mode) as (rest & -> & Hr).
      + apply String.eqb_neq, Hne.
      + change (ParserCalled s :: rest) with ([ParserCalled s] ++ rest).
        rewrite parser_calls_app, Hr. reflexivity. }
  assert (Hi : parser_calls (log_of (extract_images reader s))
               = if String.eqb s "all" then [] else [s]).
  { destruct (String.eqb_spec s "all") as [->|Hne].
    - rewrite extract_images_all. cbn [log_of fst].
      apply parser_calls_map_no_call. reflexivity.
    - destruct (extract_images_parsed reader s) as (rest & -> & Hr).
      + apply String.eqb_neq, Hne.
      + change (ParserCalled s :: rest) with ([ParserCalled s] ++ rest).
        rewrite parser_calls_app, Hr. reflexivity. }
  split; [rewrite extract_text_all; reflexivity|].
  split; [rewrite extract_images_all; reflexivity|].
  split; [exact Ht|]. split; [exact Hi|].
  rewrite Ht, Hi.
  split; [|split].
  - destruct (String.eqb_spec s "all") as [->|Hne]; simpl; intuition congruence.
  - destruct (String.eqb_spec s "all") as [->|Hne]; simpl; intuition congruence.
  - intros Hne. apply String.eqb_neq in Hne. split.
    + destruct (extract_text_parsed reader s mode Hne) as (rest & Hl & _).
      exists rest. exact Hl.
    + destruct (extract_images_parsed reader s Hne) as (rest & Hl & _).
      exists rest. exact Hl.
Qed.

Lemma all_is_never_parsed_witness :
  exists rest,
    log_of (extract_text (mkReader [mkPage (fun _ => "one") []]) "1" plain)
    = ParserCalled "1" :: rest.
Proof.
  apply (all_is_never_parsed (mkReader [mkPage (fun _ => "one") []]) "1" plain).
  discriminate.
Defined.

(* ================================================================== *)
(** * Further properties *)

(** ** The parser: when it fails, what it returns, how it composes *)





Lemma digit_value_nonneg (c : ascii) (d : Z) : digit_value c = Some d -> 0 <= d.
Proof.
  pose proof (for_all_chars
    (fun c => match digit_value c with Some d => 0 <=? d | None => true end)
    eq_refl c) as H.
  cbv beta in H. intros E. rewrite E in H. lia.
Qed.

Lemma scan_digits_nonneg (base : Z) (s : string) :
  0 <= base ->
  forall acc prev n v n' rest,
    0 <= acc ->
    scan_digits base s acc prev n = Some (v, n', rest) -> 0 <= v.
Proof.
  intros Hb. induction s as [|c s IH]; intros acc prev n v n' rest Ha H.
  - cbn [scan_digits] in H. destruct prev; [discriminate|].
    inversion H; subst. exact Ha.
  - cbn [scan_digits] in H.
    destruct (Ascii.eqb c "_").
    + destruct prev; [discriminate|]. eapply IH; eassumption.
    + destruct (digit_value c) as [d|] eqn:Ed.
      * destruct (d <? base).
        -- eapply IH; [|exact H]. pose proof (digit_value_nonneg _ _ Ed). nia.
        -- destruct prev; [discriminate|]. inversion H; subst. exact Ha.
      * destruct prev; [discriminate|]. inversion H; subst. exact Ha.
Qed.

Lemma lstrip_with_no_char (p : ascii -> bool) (c : ascii) (s : string) :
  str_contains c s = false -> str_contains c (lstrip_with p s) = false.
Proof.
  intros H. destruct (str_contains c (lstrip_with p s)) eqn:E; [|reflexivity].
  apply contains_lstrip_with in E. congruence.
Qed.

(** Without a minus sign in the string, [int()] gives no negative number. *)
Lemma int_without_minus (s : string) (v : Z) :
  str_contains "-" s = false -> int s = Ok v -> 0 <= v.
Proof.
  intros Hno H. unfold int, int_of_str in H.
  pose proof (lstrip_with_no_char is_int_space "-" s Hno) as Hno1.
  destruct (lstrip_with is_int_space s) as [|c s1] eqn:E1.
  - discriminate.
  - assert (Hneg : fst (take_sign (String c s1)) = false).
    { unfold take_sign. cbn [str_contains] in Hno1.
      apply orb_false_iff in Hno1. destruct Hno1 as [Hc _].
      destruct c as [[] [] [] [] [] [] [] []]; try reflexivity; discriminate. }
    destruct (take_sign (String c s1)) as [neg s2]. cbn [fst] in Hneg. subst neg.
    rewrite take_prefix_decimal in H.
    assert (Hscan : match scan_digits 10 s2 0 false 0 with
                    | None => Raise ValueError
                    | Some (v, n, rest) =>
                        match n, lstrip_with is_int_space rest with
                        | S _, EmptyString => Ok v
                        | _, _ => Raise ValueError
                        end
                    end = Ok v).
    { destruct s2 as [|d s2']; [exact H|].
      destruct d as [[] [] [] [] [] [] [] []]; try exact H; discriminate. }
    destruct (scan_digits 10 s2 0 false 0) as [[[v' n] rest]|] eqn:Es;
      [|discriminate].
    destruct n; [discriminate|].
    destruct (lstrip_with is_int_space rest); [|discriminate].
    inversion Hscan; subst.
    eapply (scan_digits_nonneg 10); [lia| |exact Es]. lia.
Qed.

Lemma split_pieces_no_sep (c : ascii) (s : string) :
  forall piece, In piece (split c s) -> str_contains c piece = false.
Proof.
  induction s as [|d s IH]; intros piece Hin; cbn [split] in Hin.
  - destruct Hin as [<-|[]]. reflexivity.
  - destruct (Ascii.eqb d c) eqn:Ed.
    + destruct Hin as [<-|Hin]; [reflexivity|apply IH, Hin].
    + pose proof (split_not_nil c s) as Hnn.
      destruct (split c s) as [|h t]; [congruence|].
      destruct Hin as [<-|Hin].
      * cbn [str_contains]. rewrite Ed. apply IH. left. reflexivity.
      * apply IH. right. exact Hin.
Qed.

Lemma parse_part_adds_nonneg (acc : list Z) (part : string) (acc' : list Z) :
  parse_part acc part = Ok acc' ->
  exists fresh, acc' = acc ++ fresh /\ Forall (fun p => 0 <= p) fresh.
Proof.
  unfold parse_part. set (tok := strip part). clearbody tok.
  destruct (str_contains "-" tok) eqn:Hc.
  - pose proof (split_pieces_no_sep "-" tok) as Hp.
    destruct (split "-" tok) as [|a [|b [|c r]]].
    + cbn [unpack_start_end bind]. discriminate.
    + cbn [unpack_start_end bind]. destruct (int a); cbn [bind]; discriminate.
    + cbn [unpack_start_end bind].
      destruct (int a) as [x|] eqn:Ea; cbn [bind]; [|discriminate].
      destruct (int b) as [y|] eqn:Eb; cbn [bind]; [|discriminate].
      intros H. inversion H; subst. eexists. split; [reflexivity|].
      pose proof (int_without_minus a x (Hp a ltac:(left; reflexivity)) Ea).
      apply Forall_forall. intros k Hk. rewrite range_inclusive in Hk.
      apply in_inclusive in Hk. lia.
    + rewrite unpack_three_raises. cbn [bind]. discriminate.
  - destruct (int tok) as [x|] eqn:Ex; cbn [bind]; [|discriminate].
    intros H. inversion H; subst. exists [x]. split; [reflexivity|].
    constructor; [|constructor]. eapply int_without_minus; eassumption.
Qed.

Lemma for_each_parse_nonneg (parts : list string) :
  forall acc acc',
    for_each parse_part parts acc = Ok acc' ->
    Forall (fun p => 0 <= p) acc -> Forall (fun p => 0 <= p) acc'.
Proof.
  induction parts as [|p parts IH]; intros acc acc' H Hacc; cbn [for_each] in H.
  - inversion H; subst. exact Hacc.
  - destruct (parse_part acc p) as [acc1|] eqn:E; cbn [bind] in H;
      [|discriminate].
    destruct (parse_part_adds_nonneg _ _ _ E) as (fresh & -> & Hf).
    eapply IH; [exact H|]. apply Forall_app. split; assumption.
Qed.

Lemma parse_lower_bound (s : string) (l : list Z) :
  parse_page_numbers s = Ok l -> forall i, In i l -> -1 <= i.
Proof.
  intros H i Hi. unfold parse_page_numbers in H.
  destruct (for_each parse_part (split "," s) []) as [acc|] eqn:E;
    cbn [bind] in H; [|discriminate].
  inversion H; subst.
  pose proof (for_each_parse_nonneg _ _ _ E (Forall_nil _)) as Hacc.
  apply in_map_iff in Hi. destruct Hi as (p & <- & Hp).
  rewrite Forall_forall in Hacc. specialize (Hacc p Hp). lia.
Qed.

(** X2: whatever the input, the parser never returns an index below -1:
    a token cannot carry a negative number, since a minus sign is read as
    the range separator. *)
Theorem parse_indices_at_least_minus_one :
  forall s l, parse_page_numbers s = Ok l -> Forall (fun i => -1 <= i) l.
Proof.
  intros s l H. unfold parse_page_numbers in H.
  destruct (for_each parse_part (split "," s) []) as [acc|] eqn:E;
    cbn [bind] in H; [|discriminate].
  inversion H; subst.
  pose proof (for_each_parse_nonneg _ _ _ E (Forall_nil _)) as Hacc.
  apply Forall_forall. intros i Hi. apply in_map_iff in Hi.
  destruct Hi as (p & <- & Hp).
  rewrite Forall_forall in Hacc. specialize (Hacc p Hp). lia.
Qed.

Lemma parse_indices_at_least_minus_one_witness :
  Forall (fun i => -1 <= i) [-1; 4].
Proof.
  apply (parse_indices_at_least_minus_one "0, 5" [-1; 4]). reflexivity.
Defined.

Lemma split_app_sep (c : ascii) (a b : string) :
  split c (a ++ String c b)%string = split c a ++ split c b.
Proof.
  induction a as [|d a IH]; cbn [String.append split].
  - rewrite Ascii.eqb_refl. reflexivity.
  - destruct (Ascii.eqb d c); [rewrite IH; reflexivity|].
    rewrite IH.
    pose proof (split_not_nil c a) as Hnn.
    destruct (split c a) as [|h t]; [congruence|]. reflexivity.
Qed.

Lemma for_each_app {A S : Type} (body : S -> A -> result S) (xs ys : list A) :
  forall s,
    for_each body (xs ++ ys) s
    = (s' <- for_each body xs s ;; for_each body ys s').
Proof.
  induction xs as [|x xs IH]; intros s; cbn [app for_each bind]; [reflexivity|].
  destruct (body s x) as [s1|e]; cbn [bind]; [apply IH|reflexivity].
Qed.

Lemma parse_part_acc (acc : list Z) (part : string) :
  parse_part acc part = (fresh <- parse_part [] part ;; Ok (acc ++ fresh)).
Proof.
  unfold parse_part.
  destruct (str_contains "-" (strip part)).
  - destruct (unpack_start_end _) as [[x y]|e]; reflexivity.
  - destruct (int (strip part)); reflexivity.
Qed.

Lemma for_each_parse_acc (parts : list string) :
  forall acc,
    for_each parse_part parts acc
    = (fresh <- for_each parse_part parts [] ;; Ok (acc ++ fresh)).
Proof.
  induction parts as [|p parts IH]; intros acc; cbn [for_each].
  - cbn [bind]. rewrite app_nil_r. reflexivity.
  - rewrite (parse_part_acc acc p).
    destruct (parse_part [] p) as [l|e]; cbn [bind app]; [|reflexivity].
    rewrite (IH (acc ++ l)), (IH l).
    destruct (for_each parse_part parts []) as [l'|e]; cbn [bind];
      [|reflexivity].
    rewrite app_assoc. reflexivity.
Qed.

(** X3: the parser distributes over the comma: parsing [a,b] is parsing
    [a], then [b], and joining the two lists; the first exception met, in
    [a] or else in [b], is the one raised. *)
Theorem parse_distributes_over_comma :
  forall a b : string,
    parse_page_numbers (a ++ String "," b)%string
    = (la <- parse_page_numbers a ;;
       lb <- parse_page_numbers b ;;
       Ok (la ++ lb)).
Proof.
  intros a b. unfold parse_page_numbers.
  rewrite split_app_sep, for_each_app.
  destruct (for_each parse_part (split "," a) []) as [la|e]; cbn [bind];
    [|reflexivity].
  rewrite for_each_parse_acc.
  destruct (for_each parse_part (split "," b) []) as [lb|e]; cbn [bind];
    [|reflexivity].
  rewrite map_app. reflexivity.
Qed.

Lemma count_up_not_nil (n : nat) (a : Z) : (0 < n)%nat -> count_up n a <> [].
Proof. destruct n; [lia|discriminate]. Qed.

Lemma valid_token_pages (tok : string) :
  valid_token tok = true ->
  spec_token_pages tok <> [] /\ Forall (fun p => 1 <= p) (spec_token_pages tok).
Proof.
  unfold valid_token, spec_token_pages.
  destruct (split "-" tok) as [|a [|b [|c r]]] eqn:E; try discriminate;
    intros H; repeat (apply andb_prop in H; destruct H as [H ?]).
  - destruct (split_one _ _ _ E) as [_ ->].
    split; [discriminate|]. constructor; [lia|constructor].
  - split.
    + unfold inclusive. apply count_up_not_nil. lia.
    + apply Forall_forall. intros k Hk. apply in_inclusive in Hk. lia.
Qed.

(** X4: a valid page-range spec always parses to a list that is not empty
    and holds no negative index. *)
Theorem parse_valid_spec_indices :
  forall s,
    valid_spec s = true ->
    exists l, parse_page_numbers s = Ok l
              /\ l <> [] /\ Forall (fun i => 0 <= i) l.
Proof.
  intros s H. exists (spec_indices s).
  split; [apply parse_wellformed, valid_spec_wellformed, H|].
  unfold valid_spec in H. rewrite forallb_forall in H.
  unfold spec_indices. split.
  - pose proof (split_not_nil "," s) as Hnn. unfold tokens in *.
    destruct (split "," s) as [|p ps]; [congruence|].
    cbn [map flat_map].
    destruct (valid_token_pages (strip p) (H _ ltac:(left; reflexivity)))
      as [Hne _].
    destruct (spec_token_pages (strip p)); [congruence|discriminate].
  - apply Forall_forall. intros i Hi. apply in_flat_map in Hi.
    destruct Hi as (tok & Htok & Hi). apply in_map_iff in Hi.
    destruct Hi as (p & <- & Hp).
    destruct (valid_token_pages tok (H _ Htok)) as [_ Hall].
    rewrite Forall_forall in Hall. specialize (Hall p Hp). lia.
Qed.

Lemma parse_valid_spec_indices_witness :
  exists l, parse_page_numbers "2-3, 7" = Ok l
            /\ l <> [] /\ Forall (fun i => 0 <= i) l.
Proof.
  apply (parse_valid_spec_indices "2-3, 7"). reflexivity.
Defined.

(** ** Lower-casing by [select_pages] *)

Lemma rstrip_with_keeps (p : ascii -> bool) (c : ascii) (s : string) :
  p c = false -> str_contains c s = true ->
  str_contains c (rstrip_with p s) = true.
Proof.
  intros Hp. induction s as [|d s IH]; cbn [str_contains rstrip_with];
    intros H; [discriminate|].
  apply orb_true_iff in H. destruct H as [H|H].
  - apply Ascii.eqb_eq in H. subst d.
    destruct (rstrip_with p s); [rewrite Hp|];
      cbn [str_contains]; rewrite Ascii.eqb_refl; reflexivity.
  - specialize (IH H).
    destruct (rstrip_with p s); [discriminate|].
    cbn [str_contains] in *. rewrite IH. apply orb_true_r.
Qed.

Lemma strip_keeps (c : ascii) (s : string) :
  is_space c = false -> str_contains c s = true ->
  str_contains c (strip s) = true.
Proof.
  intros Hp H. unfold strip.
  apply rstrip_with_keeps, lstrip_with_keeps; assumption.
Qed.

(** A character that can stand in no token makes the parser fail. *)
Lemma parse_rejects_foreign (c : ascii) (s : string) :
  literal_char c = false -> is_space c = false -> Ascii.eqb c "," = false ->
  str_contains c s = true ->
  parse_page_numbers s = Raise ValueError.
Proof.
  intros Hlit Hsp Hcomma Hin.
  destruct (split_piece_with "," c s Hcomma Hin) as (part & Hp & Hc).
  unfold parse_page_numbers.
  rewrite (for_each_parse_malformed _ [] part Hp); [reflexivity|].
  right. left. apply (foreign_char_non_numeric c); [exact Hlit|].
  apply strip_keeps; assumption.
Qed.

Lemma lower_char_facts (c : ascii) :
  lower_char c = c
  \/ (literal_char c = false /\ is_space c = false /\ Ascii.eqb c "," = false
      /\ literal_char (lower_char c) = false
      /\ is_space (lower_char c) = false
      /\ Ascii.eqb (lower_char c) "," = false).
Proof.
  pose proof (for_all_chars
    (fun c => Ascii.eqb (lower_char c) c
              || (negb (literal_char c) && negb (is_space c)
                  && negb (Ascii.eqb c ",")
                  && negb (literal_char (lower_char c))
                  && negb (is_space (lower_char c))
                  && negb (Ascii.eqb (lower_char c) ",")))%bool eq_refl c) as H.
  cbv beta in H. apply orb_true_iff in H. destruct H as [H|H].
  - left. apply Ascii.eqb_eq, H.
  - right.
    repeat (apply andb_prop in H; destruct H as [H ?]).
    repeat match goal with
           | X : negb _ = true |- _ => apply negb_true_iff in X
           end.
    repeat split; assumption.
Qed.

Lemma lower_fixed_or_foreign (s : string) :
  lower s = s
  \/ exists c, str_contains c s = true
               /\ str_contains (lower_char c) (lower s) = true
               /\ lower_char c <> c.
Proof.
  induction s as [|d s IH]; [left; reflexivity|].
  cbn [lower].
  destruct (Ascii.eqb_spec (lower_char d) d) as [Hd|Hd].
  - destruct IH as [IH|(c & H1 & H2 & H3)].
    + left. rewrite Hd, IH. reflexivity.
    + right. exists c. cbn [str_contains]. rewrite H1, H2, !orb_true_r.
      repeat split. exact H3.
  - right. exists d. cbn [str_contains]. rewrite !Ascii.eqb_refl.
    repeat split. exact Hd.
Qed.

(** X5: the lower-casing [select_pages] applies to the typed text never
    changes what the parser makes of it. *)
Theorem select_pages_transparent_for_parser :
  forall typed : string,
    parse_page_numbers (select_pages typed) = parse_page_numbers typed.
Proof.
  intros s. unfold select_pages.
  destruct (lower_fixed_or_foreign s) as [->|(c & H1 & H2 & Hne)];
    [reflexivity|].
  destruct (lower_char_facts c) as [E|(A1 & A2 & A3 & B1 & B2 & B3)];
    [congruence|].
  rewrite (parse_rejects_foreign c s A1 A2 A3 H1).
  apply (parse_rejects_foreign (lower_char c) (lower s) B1 B2 B3 H2).
Qed.

(** ** Extraction of explicit pages *)

Lemma text_loop_indexed (reader : PdfReader) (idxs : list Z) (ps : list PdfPage) :
  Forall2 (fun i p => getitem (pages reader) i = Ok p) idxs ps ->
  forall text,
    tfor_each (fun text page =>
                 p <~ lift (getitem (pages reader) page) ;;
                 t <~ call_extract_text p plain ;;
                 tret ((text ++ " ") ++ t)%string) idxs text
    = (map (fun p => TextRead p plain) ps,
       Ok (fold_left (fun text p => ((text ++ " ") ++ page_text p plain)%string)
                     ps text)).
Proof.
  induction 1 as [|i p idxs ps Hi _ IH]; intros text; [reflexivity|].
  cbn [tfor_each map fold_left]. rewrite Hi, tbind_lift_ok.
  unfold call_extract_text at 1. cbn [tbind tret]. rewrite IH. reflexivity.
Qed.

Lemma images_loop_indexed (reader : PdfReader) (idxs : list Z)
    (ps : list PdfPage) :
  Forall2 (fun i p => getitem (pages reader) i = Ok p) idxs ps ->
  forall images,
    tfor_each (fun images page =>
                 p <~ lift (getitem (pages reader) page) ;;
                 imgs <~ call_images p ;;
                 tret (dict_update images (image_dict imgs))) idxs images
    = (map ImagesRead ps,
       Ok (fold_left (fun images p =>
                        dict_update images (image_dict (page_images p)))
                     ps images)).
Proof.
  induction 1 as [|i p idxs ps Hi _ IH]; intros images; [reflexivity|].
  cbn [tfor_each map fold_left]. rewrite Hi, tbind_lift_ok.
  unfold call_images at 1. cbn [tbind tret]. rewrite IH. reflexivity.
Qed.

(** X6: with an explicit page specification whose indices all exist, text
    extraction calls the parser, then reads the pages the indices select
    (a negative index counting from the end), in the order and as often as
    they are listed, and joins their texts, each after one space.  The
    texts are always the plain ones: the mode asked for is not used on this
    path. *)
Theorem extract_text_of_listed_pages :
  forall (reader : PdfReader) (s : string) (mode : extraction_mode)
         (idxs : list Z) (ps : list PdfPage),
    s <> "all" ->
    parse_page_numbers s = Ok idxs ->
    Forall2 (fun i p => getitem (pages reader) i = Ok p) idxs ps ->
    extract_text reader s mode
    = (ParserCalled s :: map (fun p => TextRead p plain) ps,
       Ok (fold_left (fun text p => ((text ++ " ") ++ page_text p plain)%string)
                     ps EmptyString)).
Proof.
  intros reader s mode idxs ps Hs Hp Hget.
  apply String.eqb_neq in Hs.
  unfold extract_text. rewrite Hs.
  unfold call_parse_page_numbers. rewrite Hp. cbn [tbind].
  rewrite (text_loop_indexed reader idxs ps Hget). reflexivity.
Qed.

Lemma extract_text_of_listed_pages_witness :
  extract_text
    (mkReader [mkPage (fun _ => "one") []; mkPage (fun _ => "two") []])
    "2,1" layout
  = ([ParserCalled "2,1";
      TextRead (mkPage (fun _ => "two") []) plain;
      TextRead (mkPage (fun _ => "one") []) plain],
     Ok " two one").
Proof.
  apply (extract_text_of_listed_pages
           (mkReader [mkPage (fun _ => "one") []; mkPage (fun _ => "two") []])
           "2,1" layout [1; 0]
           [mkPage (fun _ => "two") []; mkPage (fun _ => "one") []]).
  - discriminate.
  - reflexivity.
  - repeat constructor.
Defined.

Lemma getitem_raises {A : Type} (xs : list A) (i : Z) (e : exn) :
  getitem xs i = Raise e -> e = IndexError.
Proof.
  unfold getitem.
  destruct (_ || _)%bool; [congruence|].
  destruct (nth_error _ _); congruence.
Qed.

Lemma getitem_out_of_range {A : Type} (xs : list A) (i : Z) :
  Z.of_nat (List.length xs) <= i \/ i < - Z.of_nat (List.length xs) ->
  getitem xs i = Raise IndexError.
Proof.
  intros H. unfold getitem.
  destruct (Z.ltb_spec i 0) as [Hneg|Hpos].
  - replace (i + Z.of_nat (List.length xs) <? 0) with true
      by (symmetry; apply Z.ltb_lt; lia).
    reflexivity.
  - replace (Z.of_nat (List.length xs) <=? i) with true
      by (symmetry; apply Z.leb_le; lia).
    rewrite orb_true_r. reflexivity.
Qed.

Lemma getitem_last {A : Type} (xs : list A) (x : A) :
  getitem (xs ++ [x]) (-1) = Ok x.
Proof.
  unfold getitem. rewrite length_app. cbn [List.length].
  replace (-1 <? 0) with true by reflexivity.
  replace (-1 + Z.of_nat (List.length xs + 1)) with (Z.of_nat (List.length xs))
    by lia.
  replace (Z.of_nat (List.length xs) <? 0) with false
    by (symmetry; apply Z.ltb_ge; lia).
  replace (Z.of_nat (List.length xs + 1) <=? Z.of_nat (List.length xs))
    with false by (symmetry; apply Z.leb_gt; lia).
  cbn [orb]. rewrite Nat2Z.id, nth_error_app2, Nat.sub_diag by lia.
  reflexivity.
Qed.

(** The outcome of a loop one of whose iterations raises, when raising is
    all its iterations can do wrong. *)
Lemma tfor_each_raises {A S : Type} (body : S -> A -> traced S) (e : exn)
    (xs : list A) (x : A) :
  (forall s y e', outcome (body s y) = Raise e' -> e' = e) ->
  (forall s, outcome (body s x) = Raise e) ->
  In x xs ->
  forall s, outcome (tfor_each body xs s) = Raise e.
Proof.
  intros Honly Hx. induction xs as [|y ys IH]; intros Hin s; [destruct Hin|].
  cbn [tfor_each]. unfold tbind.
  destruct (body s y) as [log [s1|e1]] eqn:E.
  - destruct Hin as [->|Hin].
    + specialize (Hx s). rewrite E in Hx. discriminate.
    + specialize (IH Hin s1).
      destruct (tfor_each body ys s1) as [log' r]. exact IH.
  - pose proof (Honly s y e1) as H. rewrite E in H.
    cbn [outcome snd] in *. rewrite (H eq_refl). reflexivity.
Qed.

Lemma indexed_body_outcome {S B : Type} (reader : PdfReader)
    (call : PdfPage -> traced B) (step : S -> B -> S) (s : S) (page : Z) :
  (forall p, exists b, outcome (call p) = Ok b) ->
  outcome (p <~ lift (getitem (pages reader) page) ;;
           t <~ call p ;; tret (step s t))
  = match getitem (pages reader) page with
    | Ok p => match outcome (call p) with
              | Ok b => Ok (step s b)
              | Raise e => Raise e
              end
    | Raise e => Raise e
    end.
Proof.
  intros Hcall. destruct (getitem (pages reader) page) as [p|e]; [|reflexivity].
  rewrite tbind_lift_ok. destruct (Hcall p) as [b Hb].
  destruct (call p) as [log r]. cbn [outcome snd] in *. subst r. reflexivity.
Qed.

(** X7: with an explicit page specification, one index that does not
    exist (at or past the page count, or below minus the page count) makes
    text extraction and image extraction raise IndexError; no text and no
    dictionary is returned. *)
Theorem extraction_out_of_range :
  forall (reader : PdfReader) (s : string) (mode : extraction_mode)
         (idxs : list Z) (i : Z),
    s <> "all" ->
    parse_page_numbers s = Ok idxs ->
    In i idxs ->
    Z.of_nat (List.length (pages reader)) <= i
    \/ i < - Z.of_nat (List.length (pages reader)) ->
    outcome (extract_text reader s mode) = Raise IndexError
    /\ outcome (extract_images reader s) = Raise IndexError.
Proof.
  intros reader s mode idxs i Hs Hp Hin Hout.
  apply String.eqb_neq in Hs.
  pose proof (getitem_out_of_range (pages reader) i Hout) as Hget.
  split.
  - unfold extract_text. rewrite Hs.
    unfold call_parse_page_numbers. rewrite Hp. unfold tbind at 1.
    match goal with
    | |- outcome (let '(_, _) := tfor_each ?b ?xs ?t in _) = _ =>
        pose proof (tfor_each_raises b IndexError xs i) as H;
        destruct (tfor_each b xs t) as [log r] eqn:E
    end.
    cbn [outcome snd]. change r with (outcome (log, r)). rewrite <- E.
    apply H; [| |exact Hin].
    + intros text y e' He'.
      rewrite (indexed_body_outcome reader
                 (fun p => call_extract_text p plain)
                 (fun text t => ((text ++ " ") ++ t)%string)) in He'
        by (intros p; eexists; reflexivity).
      destruct (getitem (pages reader) y) eqn:Ey; [discriminate|].
      inversion He'; subst. eapply getitem_raises, Ey.
    + intros text.
      rewrite (indexed_body_outcome reader
                 (fun p => call_extract_text p plain)
                 (fun text t => ((text ++ " ") ++ t)%string))
        by (intros p; eexists; reflexivity).
      rewrite Hget. reflexivity.
  - unfold extract_images. rewrite Hs.
    unfold call_parse_page_numbers. rewrite Hp. unfold tbind at 1.
    match goal with
    | |- outcome (let '(_, _) := tfor_each ?b ?xs ?t in _) = _ =>
        pose proof (tfor_each_raises b IndexError xs i) as H;
        destruct (tfor_each b xs t) as [log r] eqn:E
    end.
    cbn [outcome snd]. change r with (outcome (log, r)). rewrite <- E.
    apply H; [| |exact Hin].
    + intros images y e' He'.
      rewrite (indexed_body_outcome reader call_images
                 (fun images imgs => dict_update images (image_dict imgs)))
        in He' by (intros p; eexists; reflexivity).
      destruct (getitem (pages reader) y) eqn:Ey; [discriminate|].
      inversion He'; subst. eapply getitem_raises, Ey.
    + intros images.
      rewrite (indexed_body_outcome reader call_images
                 (fun images imgs => dict_update images (image_dict imgs)))
        by (intros p; eexists; reflexivity).
      rewrite Hget. reflexivity.
Qed.

Lemma extraction_out_of_range_witness :
  outcome (extract_text (mkReader [mkPage (fun _ => "one") []]) "1,2" plain)
  = Raise IndexError.
Proof.
  apply (extraction_out_of_range (mkReader [mkPage (fun _ => "one") []])
           "1,2" plain [0; 1] 1).
  - discriminate.
  - reflexivity.
  - right. left. reflexivity.
  - left. simpl. lia.
Defined.

Lemma lstrip_with_all (p : ascii -> bool) (s : string) :
  all_chars (fun c => negb (p c)) s = true -> lstrip_with p s = s.
Proof.
  destruct s as [|c s]; [reflexivity|]. cbn [all_chars lstrip_with].
  intros H. apply andb_prop in H. destruct H as [H _].
  apply negb_true_iff in H. rewrite H. reflexivity.
Qed.

Lemma rstrip_with_all (p : ascii -> bool) (s : string) :
  all_chars (fun c => negb (p c)) s = true -> rstrip_with p s = s.
Proof.
  induction s as [|c s IH]; [reflexivity|]. cbn [all_chars rstrip_with].
  intros H. apply andb_prop in H. destruct H as [Hc Hs].
  apply negb_true_iff in Hc. rewrite (IH Hs), Hc.
  destruct s; reflexivity.
Qed.

Lemma all_chars_impl (p q : ascii -> bool) (s : string) :
  (forall c, p c = true -> q c = true) ->
  all_chars p s = true -> all_chars q s = true.
Proof.
  intros Hpq. induction s as [|c s IH]; [reflexivity|]. cbn [all_chars].
  intros H. apply andb_prop in H. destruct H as [Hc Hs].
  rewrite (Hpq c Hc), (IH Hs). reflexivity.
Qed.

Lemma strip_decimal (s : string) : is_decimal s = true -> strip s = s.
Proof.
  intros H. apply is_decimal_all in H.
  assert (Hns : all_chars (fun c => negb (is_space c)) s = true).
  { eapply all_chars_impl; [|exact H]. intros c Hc.
    destruct (decimal_digit_facts c Hc) as (_ & Hsp & _). rewrite Hsp.
    reflexivity. }
  unfold strip. rewrite (lstrip_with_all _ _ Hns). apply rstrip_with_all, Hns.
Qed.

Lemma parse_decimal (z : string) :
  is_decimal z = true -> parse_page_numbers z = Ok [decimal_value z - 1].
Proof.
  intros H.
  assert (Hcomma : str_contains "," z = false)
    by (apply decimal_no_char; [reflexivity|apply is_decimal_all, H]).
  assert (Hminus : str_contains "-" z = false)
    by (apply decimal_no_char; [reflexivity|apply is_decimal_all, H]).
  unfold parse_page_numbers. rewrite (split_absent _ _ Hcomma).
  cbn [for_each]. unfold parse_part.
  rewrite (strip_decimal z H), Hminus, (int_decimal z H). reflexivity.
Qed.

Lemma decimal_not_all (z : string) : is_decimal z = true -> z <> "all".
Proof. intros H ->. discriminate. Qed.

(** X8: a page number of zero does not fail and does not select nothing:
    it becomes the index -1, and on a document with pages text extraction
    returns the text of the last page. *)
Theorem page_zero_reads_last_page :
  forall (reader : PdfReader) (front : list PdfPage) (last_page : PdfPage)
         (z : string) (mode : extraction_mode),
    pages reader = front ++ [last_page] ->
    is_decimal z = true -> decimal_value z = 0 ->
    extract_text reader z mode
    = ([ParserCalled z; TextRead last_page plain],
       Ok (String " " (page_text last_page plain))).
Proof.
  intros reader front last_page z mode Hpages Hz Hzero.
  pose proof (decimal_not_all z Hz) as Hne. apply String.eqb_neq in Hne.
  unfold extract_text. rewrite Hne.
  unfold call_parse_page_numbers.
  rewrite (parse_decimal z Hz), Hzero. cbn [tbind Z.sub Z.add Z.opp].
  rewrite (text_loop_indexed reader [-1] [last_page]).
  - reflexivity.
  - constructor; [|constructor]. rewrite Hpages. apply getitem_last.
Qed.

Lemma page_zero_reads_last_page_witness :
  extract_text
    (mkReader [mkPage (fun _ => "one") []; mkPage (fun _ => "two") []])
    "0" plain
  = ([ParserCalled "0"; TextRead (mkPage (fun _ => "two") []) plain],
     Ok " two").
Proof.
  apply (page_zero_reads_last_page
           (mkReader [mkPage (fun _ => "one") []; mkPage (fun _ => "two") []])
           [mkPage (fun _ => "one") []] (mkPage (fun _ => "two") []) "0" plain);
    reflexivity.
Defined.

Lemma parse_malformed_raises (s : string) :
  (exists tok, In tok (tokens s) /\ malformed tok) ->
  parse_page_numbers s = Raise ValueError.
Proof.
  intros (tok & Hin & Hbad).
  unfold tokens in Hin. apply in_map_iff in Hin.
  destruct Hin as (part & <- & Hin).
  unfold parse_page_numbers.
  rewrite (for_each_parse_malformed _ [] part Hin Hbad). reflexivity.
Qed.

(** X9: when the text of the page box, as [select_pages] returns it, is
    not "all" and has a malformed token, text extraction and image
    extraction raise ValueError after the parser call, before any page is
    read.  An empty box is such a text: its placeholder "all" is not its
    value. *)
Theorem extraction_stops_at_parser_failure :
  forall (reader : PdfReader) (typed : string) (mode : extraction_mode),
    select_pages typed <> "all" ->
    (exists tok, In tok (tokens (select_pages typed)) /\ malformed tok) ->
    extract_text reader (select_pages typed) mode
    = ([ParserCalled (select_pages typed)], Raise ValueError)
    /\ extract_images reader (select_pages typed)
       = ([ParserCalled (select_pages typed)], Raise ValueError).
Proof.
  intros reader typed mode Hs Hbad.
  apply String.eqb_neq in Hs.
  pose proof (parse_malformed_raises _ Hbad) as Hp.
  unfold extract_text, extract_images, call_parse_page_numbers.
  rewrite Hs, Hp. split; reflexivity.
Qed.

Lemma extraction_stops_at_parser_failure_witness :
  extract_text (mkReader [mkPage (fun _ => "one") []]) (select_pages "") plain
  = ([ParserCalled (select_pages "")], Raise ValueError).
Proof.
  apply (extraction_stops_at_parser_failure
           (mkReader [mkPage (fun _ => "one") []]) "" plain).
  - discriminate.
  - exists "". split; [left; reflexivity|left; reflexivity].
Defined.

(** ** The image dictionary *)

Lemma dict_get_set_same (k v : string) (d : list (string * string)) :
  dict_get k (dict_set k v d) = Some v.
Proof.
  induction d as [|[k' v'] d IH]; cbn [dict_set dict_get].
  - rewrite String.eqb_refl. reflexivity.
  - destruct (String.eqb k' k) eqn:E; cbn [dict_get].
    + rewrite String.eqb_refl. reflexivity.
    + rewrite E. exact IH.
Qed.

Lemma dict_get_set_other (k k0 v : string) (d : list (string * string)) :
  k0 <> k -> dict_get k (dict_set k0 v d) = dict_get k d.
Proof.
  intros Hne. induction d as [|[k' v'] d IH]; cbn [dict_set dict_get].
  - apply String.eqb_neq in Hne. rewrite Hne. reflexivity.
  - destruct (String.eqb_spec k' k0) as [->|Hk]; cbn [dict_get].
    + apply String.eqb_neq in Hne. rewrite Hne. reflexivity.
    + destruct (String.eqb k' k); [reflexivity|exact IH].
Qed.

Lemma dict_set_keys (k v : string) (d : list (string * string)) :
  forall k', In k' (map fst (dict_set k v d)) <-> k' = k \/ In k' (map fst d).
Proof.
  induction d as [|[k1 v1] d IH]; intros k'; cbn [dict_set map fst In].
  - intuition congruence.
  - destruct (String.eqb_spec k1 k) as [->|Hne]; cbn [map fst In].
    + intuition congruence.
    + rewrite IH. intuition congruence.
Qed.

Lemma dict_set_nodup (k v : string) (d : list (string * string)) :
  NoDup (map fst d) -> NoDup (map fst (dict_set k v d)).
Proof.
  induction d as [|[k1 v1] d IH]; cbn [dict_set map fst]; intros H.
  - constructor; [intros []|constructor].
  - inversion H as [|? ? Hnotin Hd]; subst.
    destruct (String.eqb_spec k1 k) as [->|Hne]; cbn [map fst].
    + constructor; assumption.
    + constructor; [|apply IH, Hd].
      rewrite dict_set_keys. intros [E|Hin]; [congruence|contradiction].
Qed.

Lemma dict_get_none (k : string) (d : list (string * string)) :
  ~ In k (map fst d) -> dict_get k d = None.
Proof.
  induction d as [|[k1 v1] d IH]; cbn [map fst In dict_get]; intros H;
    [reflexivity|].
  destruct (String.eqb_spec k1 k) as [->|Hne]; [tauto|]. apply IH. tauto.
Qed.

Lemma image_dict_from (images : list Image) :
  forall d,
    NoDup (map fst d) ->
    let d' := fold_left
                (fun d image => dict_set (image_data image) (image_name image) d)
                images d in
    NoDup (map fst d')
    /\ forall k, dict_get k d'
                 = match last_name k images with
                   | Some name => Some name
                   | None => dict_get k d
                   end.
Proof.
  induction images as [|image images IH]; intros d Hd; cbn [fold_left last_name].
  - split; [exact Hd|reflexivity].
  - destruct (IH (dict_set (image_data image) (image_name image) d)
                 (dict_set_nodup _ _ _ Hd)) as [Hnd Hget].
    split; [exact Hnd|]. intros k. rewrite Hget.
    destruct (last_name k images); [reflexivity|].
    destruct (String.eqb_spec (image_data image) k) as [->|Hne].
    + apply dict_get_set_same.
    + apply dict_get_set_other, Hne.
Qed.

Lemma dict_update_get (new : list (string * string)) :
  NoDup (map fst new) ->
  forall d,
    NoDup (map fst d) ->
    NoDup (map fst (dict_update d new))
    /\ forall k, dict_get k (dict_update d new)
                 = match dict_get k new with
                   | Some v => Some v
                   | None => dict_get k d
                   end.
Proof.
  unfold dict_update.
  induction new as [|[k1 v1] new IH]; intros Hnew d Hd; cbn [fold_left fst snd].
  - split; [exact Hd|reflexivity].
  - cbn [map fst] in Hnew. inversion Hnew as [|? ? Hnotin Hnew']; subst.
    destruct (IH Hnew' (dict_set k1 v1 d) (dict_set_nodup _ _ _ Hd))
      as [Hnd Hget].
    split; [exact Hnd|]. intros k. rewrite Hget. cbn [dict_get].
    destruct (String.eqb_spec k1 k) as [->|Hne].
    + rewrite (dict_get_none k new Hnotin). apply dict_get_set_same.
    + destruct (dict_get k new); [reflexivity|].
      apply dict_get_set_other, Hne.
Qed.

Lemma last_name_app (k : string) (a b : list Image) :
  last_name k (a ++ b)
  = match last_name k b with
    | Some name => Some name
    | None => last_name k a
    end.
Proof.
  induction a as [|image a IH]; cbn [app last_name].
  - destruct (last_name k b); reflexivity.
  - rewrite IH. destruct (last_name k b); reflexivity.
Qed.

Lemma images_fold (ps : list PdfPage) :
  forall d seen,
    NoDup (map fst d) ->
    (forall k, dict_get k d = last_name k seen) ->
    let d' := fold_left (fun images p =>
                           dict_update images (image_dict (page_images p)))
                        ps d in
    NoDup (map fst d')
    /\ forall k, dict_get k d' = last_name k (seen ++ flat_map page_images ps).
Proof.
  induction ps as [|p ps IH]; intros d seen Hd Hget; cbn [fold_left flat_map].
  - rewrite app_nil_r. split; assumption.
  - destruct (image_dict_from (page_images p) [] (NoDup_nil _)) as [Hn1 Hg1].
    fold (image_dict (page_images p)) in Hn1, Hg1.
    destruct (dict_update_get _ Hn1 d Hd) as [Hn2 Hg2].
    rewrite app_assoc. apply IH; [exact Hn2|].
    intros k. rewrite Hg2, Hg1, last_name_app. cbn [dict_get].
    destruct (last_name k (page_images p)); [reflexivity|apply Hget].
Qed.

(** X10: with "all", image extraction returns a dictionary with one entry
    per distinct image data found on the pages; the name kept for a data is
    that of the last image, in page order, that carries it. *)
Theorem extract_images_all_dictionary :
  forall reader : PdfReader,
  exists d,
    outcome (extract_images reader "all") = Ok d
    /\ NoDup (map fst d)
    /\ forall k, dict_get k d = last_name k (flat_map page_images (pages reader)).
Proof.
  intros reader. rewrite extract_images_all. cbn [outcome snd].
  eexists. split; [reflexivity|].
  apply (images_fold (pages reader) [] [] (NoDup_nil _)). reflexivity.
Qed.

(** ** More on [hex_to_rgba] *)

Lemma lstrip_with_app (p : ascii -> bool) (s extra : string) :
  lstrip_with p s <> EmptyString ->
  lstrip_with p (s ++ extra)%string = (lstrip_with p s ++ extra)%string.
Proof.
  induction s as [|c s IH]; cbn [lstrip_with String.append]; intros H.
  - congruence.
  - destruct (p c); [apply IH, H|reflexivity].
Qed.

Lemma substring_app (i n : nat) (t extra : string) :
  (i + n <= String.length t)%nat ->
  substring i n (t ++ extra)%string = substring i n t.
Proof.
  revert i n. induction t as [|c t IH]; intros i n H; cbn [String.length] in H.
  - assert (i = 0%nat /\ n = 0%nat) as [-> ->] by lia.
    destruct extra; reflexivity.
  - destruct i as [|i]; destruct n as [|n]; cbn [String.append substring];
      try reflexivity.
    + rewrite IH by lia. reflexivity.
    + apply IH. lia.
    + apply IH. lia.
Qed.

(** X11: only the first six characters after the leading '#' characters
    count.  Whatever follows them, such as the alpha digits of an
    eight-digit colour, is ignored, and one more leading '#' changes
    nothing. *)
Theorem hex_to_rgba_reads_six_characters :
  forall s extra : string,
    (6 <= String.length (lstrip "#" s))%nat ->
    hex_to_rgba (s ++ extra)%string = hex_to_rgba s
    /\ hex_to_rgba (String "#" s) = hex_to_rgba s.
Proof.
  intros s extra H. split; [|reflexivity].
  unfold hex_to_rgba, lstrip, slice in *.
  rewrite lstrip_with_app
    by (destruct (lstrip_with _ s); [simpl in H; lia|discriminate]).
  rewrite !substring_app by lia. reflexivity.
Qed.

Lemma hex_to_rgba_reads_six_characters_witness :
  hex_to_rgba ("#1a2B3c" ++ "80")%string = hex_to_rgba "#1a2B3c".
Proof.
  apply (hex_to_rgba_reads_six_characters "#1a2B3c" "80"). simpl. lia.
Defined.

Lemma lower_char_hash (c : ascii) :
  str_contains (lower_char c) "#" = str_contains c "#".
Proof.
  pose proof (for_all_chars
    (fun c => Bool.eqb (str_contains (lower_char c) "#") (str_contains c "#"))
    eq_refl c) as H.
  cbv beta in H. apply Bool.eqb_prop in H. exact H.
Qed.

Lemma lstrip_lower (s : string) :
  lstrip "#" (lower s) = lower (lstrip "#" s).
Proof.
  unfold lstrip. induction s as [|c s IH]; cbn [lower lstrip_with];
    [reflexivity|].
  rewrite lower_char_hash.
  destruct (str_contains c "#"); [exact IH|reflexivity].
Qed.

Lemma substring_lower (i n : nat) (s : string) :
  substring i n (lower s) = lower (substring i n s).
Proof.
  revert i n. induction s as [|c s IH]; intros [|i] [|n];
    cbn [lower substring]; try reflexivity.
  - rewrite IH. reflexivity.
  - apply IH.
  - apply IH.
Qed.

Lemma same_outcome_eq (a b : result Z) : same_outcome a b = true -> a = b.
Proof.
  destruct a as [x|[]], b as [y|[]]; cbn [same_outcome]; try discriminate;
    try reflexivity.
  intros H. apply Z.eqb_eq in H. subst. reflexivity.
Qed.

Lemma int16_lower_single (a : ascii) :
  int_of_str 16 (lower (String a EmptyString))
  = int_of_str 16 (String a EmptyString).
Proof.
  apply same_outcome_eq.
  apply (for_all_chars
           (fun a => same_outcome
                       (int_of_str 16 (lower (String a EmptyString)))
                       (int_of_str 16 (String a EmptyString)))).
  vm_compute. reflexivity.
Qed.

Lemma int16_lower_pair (a b : ascii) :
  int_of_str 16 (lower (String a (String b EmptyString)))
  = int_of_str 16 (String a (String b EmptyString)).
Proof.
  apply same_outcome_eq.
  apply (for_all_pairs
           (fun a b => same_outcome
                         (int_of_str 16 (lower (String a (String b EmptyString))))
                         (int_of_str 16 (String a (String b EmptyString))))).
  vm_compute. reflexivity.
Qed.

Lemma int16_lower_short (s : string) :
  (String.length s <= 2)%nat -> int_of_str 16 (lower s) = int_of_str 16 s.
Proof.
  intros H.
  destruct (short_string_cases s H) as [->|[[a ->]|[a [b ->]]]].
  - reflexivity.
  - apply int16_lower_single.
  - apply int16_lower_pair.
Qed.

(** X12: the conversion does not depend on the case of the letters:
    lower-casing the colour string changes neither the triple returned nor
    whether the conversion fails. *)
Theorem hex_to_rgba_ignores_case :
  forall s : string, hex_to_rgba (lower s) = hex_to_rgba s.
Proof.
  intros s. unfold hex_to_rgba, slice.
  rewrite lstrip_lower, !substring_lower.
  rewrite !int16_lower_short by apply substring_length.
  reflexivity.
Qed.

(** ** More on the watermark grid *)

Lemma range3_elements (start stop step : Z) :
  step <> 0 ->
  range3 start stop step
  = Ok (map (fun i => start + Z.of_nat i * step)
            (seq 0 (Z.to_nat (range_length start stop step)))).
Proof.
  intros H. unfold range3.
  replace (step =? 0) with false by (symmetry; apply Z.eqb_neq, H).
  reflexivity.
Qed.

Lemma range_length_positive (stop step : Z) :
  0 < step -> 100 <= stop ->
  range_length (-100) stop step = (stop + 99) / step + 1
  /\ 0 <= (stop + 99) / step.
Proof.
  intros Hs Hstop. unfold range_length.
  replace (0 <? step) with true by (symmetry; apply Z.ltb_lt; lia).
  replace (-100 <? stop) with true by (symmetry; apply Z.ltb_lt; lia).
  replace (stop - -100 - 1) with (stop + 99) by lia.
  split; [reflexivity|]. apply Z.div_pos; lia.
Qed.

Lemma range_length_negative (stop step : Z) :
  step < 0 -> -100 <= stop -> range_length (-100) stop step = 0.
Proof.
  intros Hs Hstop. unfold range_length.
  replace (0 <? step) with false by (symmetry; apply Z.ltb_ge; lia).
  replace (stop <? -100) with false by (symmetry; apply Z.ltb_ge; lia).
  reflexivity.
Qed.

(** X13: the steps of the grid.  A horizontal step of 0 raises ValueError;
    so does a vertical step of 0 under a positive horizontal step; under a
    negative horizontal step nothing is drawn and the canvas is returned
    as it was, whatever the vertical step. *)
Theorem watermark_grid_steps :
  forall (can : Canvas) (label : string) (step_x step_y : Z) (w h : Q),
    (0 <= w)%Q ->
    (step_x = 0 ->
     draw_watermark_grid can label step_x step_y w h = Raise ValueError)
    /\ (0 < step_x -> step_y = 0 ->
        draw_watermark_grid can label step_x step_y w h = Raise ValueError)
    /\ (step_x < 0 ->
        draw_watermark_grid can label step_x step_y w h = Ok can).
Proof.
  intros can label step_x step_y w h Hw.
  pose proof (int_of_float_nonneg w Hw) as HW.
  split; [|split].
  - intros ->. reflexivity.
  - intros Hx ->. unfold draw_watermark_grid.
    rewrite range3_elements by lia. cbn [bind].
    destruct (range_length_positive (int_of_float w + 100) step_x Hx
                ltac:(lia)) as [-> Hq].
    replace (Z.to_nat ((int_of_float w + 100 + 99) / step_x + 1))
      with (S (Z.to_nat ((int_of_float w + 100 + 99) / step_x))) by lia.
    cbn [seq map for_each]. reflexivity.
  - intros Hx. unfold draw_watermark_grid.
    rewrite range3_elements by lia. cbn [bind].
    rewrite range_length_negative by lia. reflexivity.
Qed.

Lemma watermark_grid_steps_witness :
  draw_watermark_grid (mkCanvas letter []) "DRAFT" (-150) 0 (612 # 1) (792 # 1)
  = Ok (mkCanvas letter []).
Proof.
  apply (watermark_grid_steps (mkCanvas letter []) "DRAFT" (-150) 0
                              (612 # 1) (792 # 1)).
  - unfold Qle. simpl. lia.
  - lia.
Defined.

Lemma NoDup_list_prod {A B : Type} (xs : list A) (ys : list B) :
  NoDup xs -> NoDup ys -> NoDup (list_prod xs ys).
Proof.
  intros Hx Hy. induction Hx as [|x xs Hnotin Hx IH]; cbn [list_prod];
    [constructor|].
  apply NoDup_app.
  - apply NoDup_map_NoDup_ForallPairs; [|exact Hy].
    intros a b _ _ E. congruence.
  - exact IH.
  - intros [a b] H1 H2. apply in_map_iff in H1. destruct H1 as (y & E & _).
    inversion E; subst. apply in_prod_iff in H2. tauto.
Qed.

Lemma NoDup_range_elements (start step : Z) (n : nat) :
  step <> 0 ->
  NoDup (map (fun i => start + Z.of_nat i * step) (seq 0 n)).
Proof.
  intros Hs. apply NoDup_map_NoDup_ForallPairs; [|apply seq_NoDup].
  intros a b _ _ E. nia.
Qed.

(** X14: with positive steps on a page of width and height at least 0,
    the grid has ((int(width) + 199) div step_x + 1) columns and
    ((int(height) + 199) div step_y + 1) rows, one tile at each crossing,
    and no two tiles share an origin. *)
Theorem watermark_grid_tile_count :
  forall (can : Canvas) (label : string) (step_x step_y : Z) (w h : Q),
    0 < step_x -> 0 < step_y -> (0 <= w)%Q -> (0 <= h)%Q ->
    exists can' fresh,
      draw_watermark_grid can label step_x step_y w h = Ok can'
      /\ tile_origins can' = tile_origins can ++ fresh
      /\ NoDup fresh
      /\ Z.of_nat (List.length fresh)
         = ((int_of_float w + 199) / step_x + 1)
           * ((int_of_float h + 199) / step_y + 1).
Proof.
  intros can label step_x step_y w h Hx Hy Hw Hh.
  pose proof (int_of_float_nonneg w Hw) as HW.
  pose proof (int_of_float_nonneg h Hh) as HH.
  assert (Hnx : step_x <> 0) by lia.
  assert (Hny : step_y <> 0) by lia.
  destruct (draw_watermark_grid_ok can label step_x step_y w h _ _
              (range3_elements (-100) (int_of_float w + 100) step_x Hnx)
              (range3_elements (-100) (int_of_float h + 100) step_y Hny))
    as [Hd Ho].
  eexists. eexists. split; [exact Hd|]. split; [exact Ho|]. split.
  - apply NoDup_list_prod; apply NoDup_range_elements; lia.
  - rewrite length_prod, !length_map, !length_seq.
    destruct (range_length_positive (int_of_float w + 100) step_x Hx
                ltac:(lia)) as [-> Hqx].
    destruct (range_length_positive (int_of_float h + 100) step_y Hy
                ltac:(lia)) as [-> Hqy].
    replace (int_of_float w + 100 + 99) with (int_of_float w + 199) in * by lia.
    replace (int_of_float h + 100 + 99) with (int_of_float h + 199) in * by lia.
    rewrite Nat2Z.inj_mul, !Z2Nat.id by lia. reflexivity.
Qed.

Lemma watermark_grid_tile_count_witness :
  exists can' fresh,
    draw_watermark_grid (mkCanvas letter []) "DRAFT" 150 100 (612 # 1) (792 # 1)
    = Ok can'
    /\ tile_origins can' = tile_origins (mkCanvas letter []) ++ fresh
    /\ NoDup fresh
    /\ Z.of_nat (List.length fresh) = 60.
Proof.
  destruct (watermark_grid_tile_count (mkCanvas letter []) "DRAFT" 150 100
              (612 # 1) (792 # 1))
    as (can' & fresh & H1 & H2 & H3 & H4).
  - lia.
  - lia.
  - unfold Qle. simpl. lia.
  - unfold Qle. simpl. lia.
  - exists can', fresh. repeat split; assumption.
Defined.

Lemma flat_map_list_prod {A B C : Type} (f : A -> B -> list C)
    (xs : list A) (ys : list B) :
  flat_map (fun xy => f (fst xy) (snd xy)) (list_prod xs ys)
  = flat_map (fun x => flat_map (f x) ys) xs.
Proof.
  induction xs as [|x xs IH]; cbn [list_prod flat_map]; [reflexivity|].
  rewrite flat_map_app, IH.
  assert (Hrow : flat_map (fun xy => f (fst xy) (snd xy))
                          (map (fun y => (x, y)) ys)
                 = flat_map (f x) ys).
  { clear IH. induction ys as [|y ys IHy]; cbn [map flat_map fst snd];
      [reflexivity|].
    rewrite IHy. reflexivity. }
  rewrite Hrow. reflexivity.
Qed.

(** Whenever the grid is drawn, the canvas has got a run of stamped tiles
    appended and nothing else. *)
Lemma draw_watermark_grid_tiles (can : Canvas) (label : string)
    (step_x step_y : Z) (w h : Q) (can' : Canvas) :
  draw_watermark_grid can label step_x step_y w h = Ok can' ->
  exists tiles : list (Z * Z),
    can' = emit (flat_map (fun xy => stamp_tile label (fst xy) (snd xy)) tiles)
                can.
Proof.
  intros H.
  destruct (range3 (-100) (int_of_float w + 100) step_x) as [xs|e] eqn:Ex.
  - destruct xs as [|x xs].
    + unfold draw_watermark_grid in H. rewrite Ex in H. cbn [bind for_each] in H.
      inversion H; subst. exists []. cbn [flat_map]. rewrite emit_nil.
      reflexivity.
    + destruct (range3 (-100) (int_of_float h + 100) step_y) as [ys|e] eqn:Ey.
      * destruct (draw_watermark_grid_ok can label step_x step_y w h _ _ Ex Ey)
          as [Hd _].
        rewrite Hd in H. inversion H; subst.
        exists (list_prod (x :: xs) ys).
        rewrite (flat_map_list_prod (stamp_tile label)). reflexivity.
      * unfold draw_watermark_grid in H. rewrite Ex in H.
        cbn [bind for_each] in H. rewrite Ey in H. discriminate.
  - unfold draw_watermark_grid in H. rewrite Ex in H. discriminate.
Qed.

Lemma state_depth_tiles (label : string) (tiles : list (Z * Z)) :
  forall d,
    state_depth d
      (flat_map (fun xy => stamp_tile label (fst xy) (snd xy)) tiles)
    = Some d.
Proof.
  induction tiles as [|xy tiles IH]; intros d; [reflexivity|].
  cbn [flat_map stamp_tile app state_depth]. apply IH.
Qed.

Lemma tiles_origins (label : string) (tiles : list (Z * Z)) :
  origins_of (flat_map (fun xy => stamp_tile label (fst xy) (snd xy)) tiles)
  = tiles.
Proof.
  induction tiles as [|[x y] tiles IH]; [reflexivity|].
  cbn [flat_map]. rewrite origins_of_app, IH. reflexivity.
Qed.

Lemma tiles_length (label : string) (tiles : list (Z * Z)) :
  List.length (flat_map (fun xy => stamp_tile label (fst xy) (snd xy)) tiles)
  = (5 * List.length tiles)%nat.
Proof.
  induction tiles as [|xy tiles IH]; [reflexivity|].
  cbn [flat_map]. rewrite length_app, IH. cbn [stamp_tile List.length]. lia.
Qed.

(** X15: a drawn grid leaves the rest of the canvas alone: the page size
    and the calls made before are kept, and what is appended is five calls
    per tile, every saved state restored, every rotation 45 degrees and
    every string the label, drawn at the translated origin. *)
Theorem watermark_grid_keeps_canvas :
  forall (can : Canvas) (label : string) (step_x step_y : Z) (w h : Q)
         (can' : Canvas),
    draw_watermark_grid can label step_x step_y w h = Ok can' ->
    pagesize can' = pagesize can
    /\ exists ops,
         drawn can' = drawn can ++ ops
         /\ (forall d, state_depth d ops = Some d)
         /\ List.length ops = (5 * List.length (origins_of ops))%nat
         /\ forall op, In op ops ->
              match op with
              | SaveState | RestoreState | Translate _ _ => True
              | Rotate degrees => degrees = 45
              | DrawCentredString x y t => x = 0 /\ y = 0 /\ t = label
              | _ => False
              end.
Proof.
  intros can label step_x step_y w h can' H.
  destruct (draw_watermark_grid_tiles _ _ _ _ _ _ _ H) as (tiles & ->).
  split; [reflexivity|].
  eexists. split; [reflexivity|]. split; [apply state_depth_tiles|]. split.
  - rewrite tiles_origins, tiles_length. reflexivity.
  - intros op Hin. apply in_flat_map in Hin.
    destruct Hin as (xy & _ & Hop). cbn [stamp_tile In] in Hop.
    destruct Hop as [<-|[<-|[<-|[<-|[<-|[]]]]]]; auto.
Qed.

Lemma watermark_grid_keeps_canvas_witness :
  pagesize (mkCanvas (100 # 1, 100 # 1)
              (stamp_tile "DRAFT" (-100) (-100) ++ stamp_tile "DRAFT" (-100) 50))
  = (100 # 1, 100 # 1)%Q.
Proof.
  apply (watermark_grid_keeps_canvas (mkCanvas (100 # 1, 100 # 1) []) "DRAFT"
           300 150 (100 # 1) (50 # 1)).
  reflexivity.
Defined.

(** ** [create_watermark_canvas] and [watermark_pdf] *)

Lemma hex_to_rgba_raises (s : string) (e : exn) :
  hex_to_rgba s = Raise e -> e = ValueError.
Proof.
  destruct (hex_to_rgba_cases s) as [(_ & r & g & b & H & _)|[_ H]];
    rewrite H; congruence.
Qed.

Lemma create_watermark_canvas_drawn (label : string) (size : Z)
    (color : string) (alpha : Q) (r g b : Q) :
  hex_to_rgba color = Ok (r, g, b) ->
  (0 <= alpha)%Q -> (alpha <= 1)%Q ->
  create_watermark_canvas label size color alpha
  = Ok (mkCanvas letter
          ([SetFont "Helvetica" size; SetFillColorRGB r g b;
            SetFillAlpha alpha; SaveState]
           ++ flat_map (fun xy => stamp_tile label (fst xy) (snd xy))
                (list_prod [-100; 50; 200; 350; 500; 650]
                           [-100; 0; 100; 200; 300; 400; 500; 600; 700; 800])
           ++ [Save])).
Proof.
  intros Hc Ha0 Ha1. unfold create_watermark_canvas. rewrite Hc. cbn [bind].
  rewrite (setFillAlpha_ok alpha _ Ha0 Ha1). cbn [bind].
  match goal with
  | |- context [draw_watermark_grid ?c _ _ _ _ _] =>
      destruct (draw_watermark_grid_ok c label 150 100 (fst letter) (snd letter)
                  _ _ eq_refl eq_refl) as [Hd _]
  end.
  rewrite Hd. cbn [bind].
  rewrite (flat_map_list_prod (stamp_tile label)). reflexivity.
Qed.

Lemma create_watermark_canvas_bad_alpha (label : string) (size : Z)
    (color : string) (alpha : Q) :
  (alpha < 0)%Q \/ (1 < alpha)%Q ->
  create_watermark_canvas label size color alpha = Raise ValueError.
Proof.
  intros Ha. unfold create_watermark_canvas.
  destruct (hex_to_rgba color) as [[[r g] b]|e] eqn:Hc; cbn [bind].
  - rewrite (setFillAlpha_outside alpha _ Ha). reflexivity.
  - rewrite (hex_to_rgba_raises _ _ Hc). reflexivity.
Qed.

(** X16: the watermark canvas.  A colour the conversion rejects, or an
    opacity outside [0, 1], makes the function raise ValueError.
    Otherwise the canvas has the letter page size and holds, in this
    order: the font at the given size, the fill colour, the opacity, one
    saved state, then for each x of -100, 50, ..., 650 and each y of
    -100, 0, ..., 800 the tile that saves the state, moves to (x, y), turns
    45 degrees, draws the label centred and restores the state, and last
    the final save.  The state saved before the grid is never restored. *)
Theorem create_watermark_canvas_contents :
  forall (label : string) (size : Z) (color : string) (alpha : Q),
    (forall e, hex_to_rgba color = Raise e ->
               create_watermark_canvas label size color alpha
               = Raise ValueError)
    /\ ((alpha < 0)%Q \/ (1 < alpha)%Q ->
        create_watermark_canvas label size color alpha = Raise ValueError)
    /\ (forall r g b,
          hex_to_rgba color = Ok (r, g, b) ->
          (0 <= alpha)%Q -> (alpha <= 1)%Q ->
          let tiles :=
            flat_map (fun xy => stamp_tile label (fst xy) (snd xy))
              (list_prod [-100; 50; 200; 350; 500; 650]
                         [-100; 0; 100; 200; 300; 400; 500; 600; 700; 800]) in
          create_watermark_canvas label size color alpha
          = Ok (mkCanvas letter
                  ([SetFont "Helvetica" size; SetFillColorRGB r g b;
                    SetFillAlpha alpha; SaveState] ++ tiles ++ [Save]))
          /\ List.length (origins_of tiles) = 60%nat
          /\ state_depth 1 tiles = Some 1%nat
          /\ state_depth 0
               ([SetFont "Helvetica" size; SetFillColorRGB r g b;
                 SetFillAlpha alpha; SaveState] ++ tiles ++ [Save])
             = Some 1%nat).
Proof.
  intros label size color alpha. split; [|split].
  - intros e He. pose proof (hex_to_rgba_raises _ _ He) as ->.
    unfold create_watermark_canvas. rewrite He. reflexivity.
  - apply create_watermark_canvas_bad_alpha.
  - intros r g b Hc Ha0 Ha1 tiles.
    split; [apply (create_watermark_canvas_drawn label size color alpha r g b
                     Hc Ha0 Ha1)|].
    split; [reflexivity|]. split; reflexivity.
Qed.

Lemma create_watermark_canvas_contents_witness :
  create_watermark_canvas "DRAFT" 12 "#000000" (3 # 2) = Raise ValueError.
Proof.
  apply (proj1 (proj2 (create_watermark_canvas_contents "DRAFT" 12 "#000000"
                         (3 # 2)))).
  right. unfold Qlt. simpl. lia.
Defined.

(** X17: [watermark_pdf] draws the canvas before it looks at the
    document: a rejected colour, or an opacity outside [0, 1], raises
    ValueError whatever the document is.  With an accepted colour and an
    opacity in [0, 1], a saved canvas without a page raises IndexError, and
    otherwise every page of the document is merged with the canvas's first
    page under it, page for page. *)
Theorem watermark_pdf_outcomes :
  forall (Page : Type) (merge_page : Page -> Page -> bool -> Page)
         (canvas_pages : Canvas -> list Page) (pdf : list Page)
         (label : string) (size : Z) (color : string) (alpha : Q),
    (forall e, hex_to_rgba color = Raise e ->
               watermark_pdf Page merge_page canvas_pages pdf label size color
                             alpha = Raise ValueError)
    /\ ((alpha < 0)%Q \/ (1 < alpha)%Q ->
        watermark_pdf Page merge_page canvas_pages pdf label size color alpha
        = Raise ValueError)
    /\ (forall rgb,
          hex_to_rgba color = Ok rgb ->
          (0 <= alpha)%Q -> (alpha <= 1)%Q ->
          exists can,
            create_watermark_canvas label size color alpha = Ok can
            /\ (canvas_pages can = [] ->
                watermark_pdf Page merge_page canvas_pages pdf label size color
                              alpha = Raise IndexError)
            /\ (forall stamp more,
                  canvas_pages can = stamp :: more ->
                  watermark_pdf Page merge_page canvas_pages pdf label size
                                color alpha
                  = Ok (map (fun page => merge_page page stamp false) pdf))).
Proof.
  intros Page merge_page canvas_pages pdf label size color alpha.
  split; [|split].
  - intros e He. pose proof (hex_to_rgba_raises _ _ He) as ->.
    unfold watermark_pdf, create_watermark_canvas. rewrite He. reflexivity.
  - intros Ha. unfold watermark_pdf.
    rewrite (create_watermark_canvas_bad_alpha label size color alpha Ha).
    reflexivity.
  - intros [[r g] b] Hc Ha0 Ha1.
    pose proof (create_watermark_canvas_drawn label size color alpha r g b Hc
                  Ha0 Ha1) as Hcan.
    eexists. split; [exact Hcan|].
    unfold watermark_pdf. rewrite Hcan. cbn [bind]. split.
    + intros ->. reflexivity.
    + intros stamp more ->. apply merge_watermark_into_pdf_pages.
Qed.

Lemma watermark_pdf_outcomes_witness :
  watermark_pdf (list string)
    (fun page page2 (over : bool) => if over then page ++ page2 else page2 ++ page)
    (fun _ => [["stamp"]]) [["text 1"]; ["text 2"]] "DRAFT" 12 "#000000" (3 # 2)
  = Raise ValueError.
Proof.
  apply (proj1 (proj2 (watermark_pdf_outcomes (list string)
                  (fun page page2 (over : bool) =>
                     if over then page ++ page2 else page2 ++ page)
                  (fun _ => [["stamp"]]) [["text 1"]; ["text 2"]] "DRAFT" 12
                  "#000000" (3 # 2)))).
  right. unfold Qlt. simpl. lia.
Defined.

(** ** PDF dates *)

Ltac match_one_atom H s :=
  let c := fresh "c" in
  let E := fresh "E" in
  destruct s as [|c s]; [discriminate H|];
  cbn [match_atoms atom_matches] in H;
  match type of H with
  | context [if ?b then _ else _] => destruct b eqn:E; [|discriminate H]
  end.

Lemma at_end_cases (s : string) :
  at_end s = true <-> s = EmptyString \/ s = String newline EmptyString.
Proof.
  unfold at_end. rewrite orb_true_iff, !String.eqb_eq. reflexivity.
Qed.

Lemma length_two (s : string) :
  String.length s = 2%nat -> exists a b, s = String a (String b EmptyString).
Proof.
  destruct s as [|a [|b [|c r]]]; simpl; intros H; try discriminate.
  eauto.
Qed.

Lemma pdf_datetime_accepted (s : string) :
  is_pdf_datetime s = true ->
  exists date hh mm tail : string,
    s = ("D:" ++ date ++ "+" ++ hh ++ "'" ++ mm ++ "'" ++ tail)%string
    /\ String.length date = 14%nat /\ all_chars is_decimal_digit date = true
    /\ String.length hh = 2%nat /\ all_chars is_decimal_digit hh = true
    /\ String.length mm = 2%nat /\ all_chars is_decimal_digit mm = true
    /\ (tail = EmptyString \/ tail = String newline EmptyString).
Proof.
  unfold is_pdf_datetime, pdf_datetime_pattern. cbn [app repeat].
  intros H.
  destruct (match_atoms _ s) as [rest|] eqn:M; [|discriminate].
  apply at_end_cases in H.
  do 23 (match_one_atom M s).
  cbn [match_atoms] in M. injection M as M. subst rest.
  repeat match goal with
         | X : Ascii.eqb _ _ = true |- _ => apply Ascii.eqb_eq in X; subst
         end.
  exists (String c1 (String c2 (String c3 (String c4 (String c5 (String c6
           (String c7 (String c8 (String c9 (String c10 (String c11
           (String c12 (String c13 (String c14 EmptyString)))))))))))))),
         (String c16 (String c17 EmptyString)),
         (String c19 (String c20 EmptyString)), s.
  cbn [all_chars String.length String.append].
  repeat match goal with
         | X : is_decimal_digit _ = true |- _ => rewrite X; clear X
         end.
  repeat split; try reflexivity. exact H.
Qed.

(** X18: [is_pdf_datetime] accepts exactly the strings made of "D:",
    fourteen decimal digits, '+', two digits, an apostrophe, two digits
    and an apostrophe, followed by nothing or by one newline.  A date with
    a negative or a 'Z' offset is thus never taken for a date. *)
Theorem is_pdf_datetime_shape :
  forall s : string,
    is_pdf_datetime s = true <->
    exists date hh mm tail : string,
      s = ("D:" ++ date ++ "+" ++ hh ++ "'" ++ mm ++ "'" ++ tail)%string
      /\ String.length date = 14%nat /\ all_chars is_decimal_digit date = true
      /\ String.length hh = 2%nat /\ all_chars is_decimal_digit hh = true
      /\ String.length mm = 2%nat /\ all_chars is_decimal_digit mm = true
      /\ (tail = EmptyString \/ tail = String newline EmptyString).
Proof.
  intros s. split; [apply pdf_datetime_accepted|].
  intros (date & hh & mm & tail & -> & Ld & Dd & Lh & Dh & Lm & Dm & Ht).
  apply length_two in Lh, Lm.
  destruct Lh as (h1 & h2 & ->). destruct Lm as (m1 & m2 & ->).
  do 15 (destruct date as [|? date]; try discriminate Ld).
  cbn [all_chars] in Dd, Dh, Dm.
  repeat match goal with
         | X : (_ && _)%bool = true |- _ => apply andb_prop in X; destruct X
         end.
  unfold is_pdf_datetime, pdf_datetime_pattern.
  cbn [app repeat String.append match_atoms atom_matches].
  repeat match goal with
         | X : is_decimal_digit _ = true |- _ => rewrite X; clear X
         end.
  rewrite !Ascii.eqb_refl.
  apply at_end_cases, Ht.
Qed.


Lemma substring_all (s : string) : substring 0 (String.length s) s = s.
Proof.
  induction s as [|c s IH]; cbn [String.length substring]; [reflexivity|].
  rewrite IH. reflexivity.
Qed.

Lemma append_length (a b : string) :
  String.length (a ++ b)%string = (String.length a + String.length b)%nat.
Proof.
  induction a as [|c a IH]; cbn [String.append String.length]; [reflexivity|].
  rewrite IH. reflexivity.
Qed.

Lemma bind_ext {A B : Type} (m m' : result A) (k k' : A -> result B) :
  m = m' -> (forall a, k a = k' a) -> bind m k = bind m' k'.
Proof. intros -> H. destruct m'; cbn [bind]; [apply H|reflexivity]. Qed.

Section Metadata_properties.

Variable reformat : string -> result string.

Lemma convert_pdf_datetime_slices (a b : ascii) (date tz : string) :
  String.length date = 14%nat ->
  convert_pdf_datetime reformat (String a (String b (date ++ tz)))%string
  = (formatted <- reformat date ;; Ok (formatted ++ tz)%string).
Proof.
  intros Ld.
  do 15 (destruct date as [|? date]; try discriminate Ld).
  unfold convert_pdf_datetime, slice_from, slice.
  cbn [String.append String.length Nat.sub substring].
  rewrite Nat.sub_0_r.
  apply bind_ext.
  - rewrite substring_all. destruct tz; reflexivity.
  - intros formatted. rewrite !substring_all. reflexivity.
Qed.

(** X19: on a string [is_pdf_datetime] accepts, [convert_pdf_datetime]
    hands the date library exactly the fourteen digits and appends the
    offset as it stands, "+hh'mm'" and the newline if there is one, to the
    reformatted date; when the library rejects the digits its exception is
    raised. *)
Theorem convert_pdf_datetime_accepted :
  forall s : string,
    is_pdf_datetime s = true ->
    exists date tz : string,
      s = ("D:" ++ date ++ tz)%string
      /\ String.length date = 14%nat
      /\ all_chars is_decimal_digit date = true
      /\ String.length tz = (String.length s - 16)%nat
      /\ convert_pdf_datetime reformat s
         = (formatted <- reformat date ;; Ok (formatted ++ tz)%string).
Proof.
  intros s H. apply pdf_datetime_accepted in H.
  destruct H as (date & hh & mm & tail & -> & Ld & Dd & _).
  exists date, ("+" ++ hh ++ "'" ++ mm ++ "'" ++ tail)%string.
  split; [reflexivity|]. split; [exact Ld|]. split; [exact Dd|]. split.
  - cbn [String.append String.length]. rewrite (append_length date), Ld.
    cbn [String.length]. lia.
  - exact (convert_pdf_datetime_slices "D" ":" date
             ("+" ++ hh ++ "'" ++ mm ++ "'" ++ tail)%string Ld).
Qed.

End Metadata_properties.

Lemma convert_pdf_datetime_accepted_witness :
  exists date tz : string,
    "D:20240131235959+01'00'" = ("D:" ++ date ++ tz)%string
    /\ String.length date = 14%nat
    /\ convert_pdf_datetime (fun x => Ok ("<" ++ x ++ "> ")%string)
                            "D:20240131235959+01'00'"
       = (formatted <- Ok ("<" ++ date ++ "> ")%string ;;
          Ok (formatted ++ tz)%string).
Proof.
  destruct (convert_pdf_datetime_accepted
              (fun x => Ok ("<" ++ x ++ "> ")%string)
              "D:20240131235959+01'00'" eq_refl)
    as (date & tz & H1 & H2 & _ & _ & H3).
  exists date, tz. repeat split; assumption.
Defined.

(** ** The metadata table *)

Lemma for_each_invariant {A S : Type} (P : S -> Prop)
    (body : S -> A -> result S) (xs : list A) :
  (forall s x s', body s x = Ok s' -> P s -> P s') ->
  forall s s', for_each body xs s = Ok s' -> P s -> P s'.
Proof.
  intros Hstep. induction xs as [|x xs IH]; intros s s' H Hs;
    cbn [for_each] in H.
  - inversion H; subst. exact Hs.
  - destruct (body s x) as [s1|e] eqn:E; cbn [bind] in H; [|discriminate].
    eapply IH; [exact H|]. eapply Hstep; eassumption.
Qed.

Lemma row_set_keys (k : string) (v : cell) (d : list (string * cell)) :
  forall k', In k' (map fst (row_set k v d)) <-> k' = k \/ In k' (map fst d).
Proof.
  induction d as [|[k1 v1] d IH]; intros k'; cbn [row_set map fst In].
  - intuition congruence.
  - destruct (String.eqb_spec k1 k) as [->|Hne]; cbn [map fst In].
    + intuition congruence.
    + rewrite IH. intuition congruence.
Qed.

Lemma row_set_nodup (k : string) (v : cell) (d : list (string * cell)) :
  NoDup (map fst d) -> NoDup (map fst (row_set k v d)).
Proof.
  induction d as [|[k1 v1] d IH]; cbn [row_set map fst]; intros H.
  - constructor; [intros []|constructor].
  - inversion H as [|? ? Hnotin Hd]; subst.
    destruct (String.eqb_spec k1 k) as [->|Hne]; cbn [map fst].
    + constructor; assumption.
    + constructor; [|apply IH, Hd].
      rewrite row_set_keys. intros [E|Hin]; [congruence|contradiction].
Qed.

Lemma row_get_set_same (k : string) (v : cell) (d : list (string * cell)) :
  row_get k (row_set k v d) = Some v.
Proof.
  induction d as [|[k' v'] d IH]; cbn [row_set row_get].
  - rewrite String.eqb_refl. reflexivity.
  - destruct (String.eqb k' k) eqn:E; cbn [row_get].
    + rewrite String.eqb_refl. reflexivity.
    + rewrite E. exact IH.
Qed.

Lemma row_get_set_other (k k0 : string) (v : cell) (d : list (string * cell)) :
  k0 <> k -> row_get k (row_set k0 v d) = row_get k d.
Proof.
  intros Hne. induction d as [|[k' v'] d IH]; cbn [row_set row_get].
  - apply String.eqb_neq in Hne. rewrite Hne. reflexivity.
  - destruct (String.eqb_spec k' k0) as [->|Hk]; cbn [row_get].
    + apply String.eqb_neq in Hne. rewrite Hne. reflexivity.
    + destruct (String.eqb k' k); [reflexivity|exact IH].
Qed.

Lemma row_set_length (k : string) (v : cell) (d : list (string * cell)) :
  (List.length (row_set k v d) <= S (List.length d))%nat.
Proof.
  induction d as [|[k1 v1] d IH]; cbn [row_set List.length]; [lia|].
  destruct (String.eqb k1 k); cbn [List.length]; lia.
Qed.

Lemma row_set_head (k : string) (v : cell) (d : list (string * cell))
    (k0 : string) :
  (exists v0 rest, d = (k0, v0) :: rest) ->
  exists v1 rest1, row_set k v d = (k0, v1) :: rest1.
Proof.
  intros (v0 & rest & ->). cbn [row_set].
  destruct (String.eqb_spec k0 k) as [->|Hne]; eauto.
Qed.

Lemma remove_char_absent (c : ascii) (s : string) :
  str_contains c (remove_char c s) = false.
Proof.
  induction s as [|d s IH]; cbn [remove_char]; [reflexivity|].
  destruct (Ascii.eqb d c) eqn:E; [exact IH|].
  cbn [str_contains]. rewrite E, IH. reflexivity.
Qed.

Section Display_properties.

Variable reformat : string -> result string.

Lemma display_step (metadata : list (string * cell)) (kv : string * meta_value)
    (rows : list (string * cell)) :
  set_row reformat metadata kv = Ok rows ->
  exists shown, rows = row_set (remove_char "/" (fst kv)) (Text shown) metadata.
Proof.
  unfold set_row. destruct (snd kv) as [value|]; [|discriminate].
  destruct (if is_pdf_datetime value then _ else _) as [shown|e];
    cbn [bind]; intros H; [|discriminate].
  inversion H; subst. eauto.
Qed.

Lemma display_returns (reader : PdfReader)
    (info : option (list (string * meta_value))) (rows : list (string * cell)) :
  display_metadata reformat reader info = Ok rows ->
  exists entries,
    info = Some entries
    /\ for_each (set_row reformat) entries
         [("Number of pages", Count (List.length (pages reader)))] = Ok rows.
Proof.
  unfold display_metadata. destruct info as [entries|]; [|discriminate].
  intros H. exists entries. split; [reflexivity|exact H].
Qed.

(** What holds of the first row and is kept by every assignment holds of
    the table. *)
Lemma display_invariant (P : list (string * cell) -> Prop)
    (reader : PdfReader) (info : option (list (string * meta_value)))
    (rows : list (string * cell)) :
  P [("Number of pages", Count (List.length (pages reader)))] ->
  (forall d k shown, P d -> P (row_set (remove_char "/" k) (Text shown) d)) ->
  display_metadata reformat reader info = Ok rows -> P rows.
Proof.
  intros Hinit Hstep H.
  destruct (display_returns _ _ _ H) as (entries & _ & Hloop).
  refine (for_each_invariant P _ entries _ _ rows Hloop Hinit).
  intros d kv d' Hd HP. destruct (display_step _ _ _ Hd) as [shown ->].
  apply Hstep, HP.
Qed.

Lemma display_length (entries : list (string * meta_value)) :
  forall d rows,
    for_each (set_row reformat) entries d = Ok rows ->
    (List.length rows <= List.length d + List.length entries)%nat.
Proof.
  induction entries as [|kv entries IH]; intros d rows H; cbn [for_each] in H.
  - inversion H; subst. lia.
  - destruct (set_row reformat d kv) as [d1|e] eqn:E; cbn [bind] in H;
      [|discriminate].
    destruct (display_step _ _ _ E) as [shown ->].
    specialize (IH _ _ H).
    pose proof (row_set_length (remove_char "/" (fst kv)) (Text shown) d).
    cbn [List.length]. lia.
Qed.

(** X20: whenever [display_metadata] returns, the document has a metadata
    dictionary, and the table built has the row "Number of pages" first, no
    two rows with the same name, no '/' in any name, and at most one row
    more than the document has metadata entries. *)
Theorem display_metadata_rows :
  forall (reader : PdfReader) (info : option (list (string * meta_value)))
         (rows : list (string * cell)),
    display_metadata reformat reader info = Ok rows ->
    (exists v rest, rows = ("Number of pages", v) :: rest)
    /\ NoDup (map fst rows)
    /\ (forall k, In k (map fst rows) -> str_contains "/" k = false)
    /\ (exists entries, info = Some entries
                        /\ (List.length rows <= S (List.length entries))%nat).
Proof.
  intros reader info rows H. split; [|split; [|split]].
  - apply (display_invariant
             (fun rows => exists v rest, rows = ("Number of pages", v) :: rest)
             reader info rows); [eauto| |exact H].
    intros d k shown Hhead. apply row_set_head, Hhead.
  - apply (display_invariant (fun rows => NoDup (map fst rows))
             reader info rows); [| |exact H].
    + cbn [map fst]. constructor; [intros []|constructor].
    + intros d k shown Hnd. apply row_set_nodup, Hnd.
  - apply (display_invariant
             (fun rows => forall k, In k (map fst rows) ->
                                    str_contains "/" k = false)
             reader info rows); [| |exact H].
    + cbn [map fst In]. intros k [<-|[]]. reflexivity.
    + intros d k shown Hk k' Hin.
      apply row_set_keys in Hin. destruct Hin as [->|Hin].
      * apply remove_char_absent.
      * apply Hk, Hin.
  - destruct (display_returns _ _ _ H) as (entries & Hinfo & Hloop).
    exists entries. split; [exact Hinfo|].
    apply display_length in Hloop. cbn [List.length] in Hloop. lia.
Qed.

(** The page count stays in its row as long as no assignment goes to that
    row, and is replaced by a string as soon as one does. *)
Lemma count_row_kept (entries : list (string * meta_value)) :
  forall d rows,
    for_each (set_row reformat) entries d = Ok rows ->
    (Forall (fun kv => remove_char "/" (fst kv) <> "Number of pages") entries ->
     row_get "Number of pages" rows = row_get "Number of pages" d)
    /\ ((exists t, row_get "Number of pages" d = Some (Text t))
        \/ Exists (fun kv => remove_char "/" (fst kv) = "Number of pages")
                  entries ->
        exists t, row_get "Number of pages" rows = Some (Text t)).
Proof.
  induction entries as [|kv entries IH]; intros d rows H; cbn [for_each] in H.
  - inversion H; subst. split; [reflexivity|].
    intros [Ht|Hex]; [exact Ht|inversion Hex].
  - destruct (set_row reformat d kv) as [d1|e] eqn:E; cbn [bind] in H;
      [|discriminate].
    destruct (display_step _ _ _ E) as [shown ->].
    destruct (IH _ _ H) as [IH1 IH2]. split.
    + intros Hall. inversion Hall as [|? ? Hkv Hrest]; subst.
      rewrite (IH1 Hrest). apply row_get_set_other, Hkv.
    + intros Hor. apply IH2.
      destruct (String.eqb_spec (remove_char "/" (fst kv)) "Number of pages")
        as [Heq|Hne].
      * left. exists shown. rewrite Heq. apply row_get_set_same.
      * destruct Hor as [(t & Ht)|Hex].
        -- left. exists t. rewrite row_get_set_other by exact Hne. exact Ht.
        -- right. inversion Hex; subst; [contradiction|assumption].
Qed.

(** X21: whenever [display_metadata] returns, the table shows the page
    count exactly when no metadata name becomes "Number of pages" once its
    '/' characters are removed; an entry such as "/Number of pages" takes
    the row over with its own value. *)
Theorem display_metadata_page_count :
  forall (reader : PdfReader) (entries : list (string * meta_value))
         (rows : list (string * cell)),
    display_metadata reformat reader (Some entries) = Ok rows ->
    (row_get "Number of pages" rows = Some (Count (List.length (pages reader)))
     <-> Forall (fun kv => remove_char "/" (fst kv) <> "Number of pages")
                entries)
    /\ (Exists (fun kv => remove_char "/" (fst kv) = "Number of pages") entries ->
        exists t, row_get "Number of pages" rows = Some (Text t)).
Proof.
  intros reader entries rows H. unfold display_metadata in H.
  destruct (count_row_kept entries _ _ H) as [H1 H2]. split; [split|].
  - intros Hcount.
    destruct (Forall_Exists_dec
                (fun kv : string * meta_value =>
                   remove_char "/" (fst kv) <> "Number of pages")
                (fun kv => match string_dec (remove_char "/" (fst kv))
                                            "Number of pages" with
                           | left E => right (fun N => N E)
                           | right N => left N
                           end) entries) as [Hall|Hex]; [exact Hall|].
    exfalso.
    assert (Hex' : Exists (fun kv : string * meta_value =>
                             remove_char "/" (fst kv) = "Number of pages")
                          entries).
    { apply Exists_exists in Hex. destruct Hex as (kv & Hin & Hn).
      apply Exists_exists. exists kv. split; [exact Hin|].
      destruct (string_dec (remove_char "/" (fst kv)) "Number of pages");
        [assumption|contradiction]. }
    destruct (H2 (or_intror Hex')) as (t & Ht). congruence.
  - intros Hall. rewrite (H1 Hall). reflexivity.
  - intros Hex. apply H2. right. exact Hex.
Qed.

Lemma set_row_raises (d : list (string * cell)) (kv : string * meta_value) :
  (exists e, set_row reformat d kv = Raise e)
  <-> snd kv = OtherValue
      \/ exists v e, snd kv = StrValue v /\ is_pdf_datetime v = true
                     /\ convert_pdf_datetime reformat v = Raise e.
Proof.
  unfold set_row. destruct (snd kv) as [v|].
  - destruct (is_pdf_datetime v) eqn:Ev.
    + destruct (convert_pdf_datetime reformat v) as [shown|e] eqn:Ec;
        cbn [bind].
      * split; [intros (e & H); discriminate|].
        intros [H|(v' & e & Hv & _ & Hc)]; [discriminate|].
        inversion Hv; subst. congruence.
      * split; [|eauto]. intros _. right. exists v, e. auto.
    + cbn [bind]. split; [intros (e & H); discriminate|].
      intros [H|(v' & e & Hv & Hd & _)]; [discriminate|].
      inversion Hv; subst. congruence.
  - split; [intros _; left; reflexivity|eauto].
Qed.

(** X22: [display_metadata] raises exactly in these cases: the document
    has no metadata dictionary, or some metadata value is not a string
    (TypeError in both), or some value has the shape of a PDF date and the
    date conversion of its digits raises.  String values of any other shape
    never make it fail. *)
Theorem display_metadata_failure :
  forall (reader : PdfReader) (info : option (list (string * meta_value))),
    ((exists e, display_metadata reformat reader info = Raise e)
     <-> info = None
         \/ exists entries,
              info = Some entries
              /\ ((exists k, In (k, OtherValue) entries)
                  \/ exists k v e,
                       In (k, StrValue v) entries /\ is_pdf_datetime v = true
                       /\ convert_pdf_datetime reformat v = Raise e))
    /\ (info = None -> display_metadata reformat reader info = Raise TypeError)
    /\ (forall entries k,
          info = Some entries -> In (k, OtherValue) entries ->
          Forall (fun kv => forall v, snd kv = StrValue v ->
                                      is_pdf_datetime v = false) entries ->
          display_metadata reformat reader info = Raise TypeError).
Proof.
  intros reader info. split; [|split].
  - destruct info as [entries|]; cbn [display_metadata].
    + unfold display_metadata.
      generalize [("Number of pages", Count (List.length (pages reader)))].
      assert (G : forall d,
                 (exists e, for_each (set_row reformat) entries d = Raise e)
                 <-> (exists k, In (k, OtherValue) entries)
                     \/ exists k v e,
                          In (k, StrValue v) entries
                          /\ is_pdf_datetime v = true
                          /\ convert_pdf_datetime reformat v = Raise e).
      { induction entries as [|[k val] entries IH]; intros d.
        - split; [intros (e & H); discriminate|].
          intros [(k & [])|(k & v & e & [] & _)].
        - cbn [for_each]. split.
          + intros (e & H).
            destruct (set_row reformat d (k, val)) as [d1|e1] eqn:E;
              cbn [bind] in H.
            * destruct (proj1 (IH d1) (ex_intro _ e H))
                as [(k' & Hin)|(k' & v & e' & Hin & Hd)].
              -- left. exists k'. right. exact Hin.
              -- right. exists k', v, e'. split; [right; exact Hin|exact Hd].
            * destruct (proj1 (set_row_raises d (k, val)) (ex_intro _ e1 E))
                as [Ho|(v & e' & Hv & Hd)]; cbn [snd] in *; subst val.
              -- left. exists k. left. reflexivity.
              -- right. exists k, v, e'. split; [left; reflexivity|exact Hd].
          + intros Hcase.
            destruct (set_row reformat d (k, val)) as [d1|e1] eqn:E;
              cbn [bind]; [|eauto].
            apply IH.
            assert (Hnot : ~ exists e, set_row reformat d (k, val) = Raise e)
              by (intros (e & He); congruence).
            rewrite set_row_raises in Hnot. cbn [snd] in Hnot.
            destruct Hcase as [(k' & [Heq|Hin])|(k' & v & e & [Heq|Hin] & Hd)].
            * inversion Heq; subst. exfalso. apply Hnot. left. reflexivity.
            * left. exists k'. exact Hin.
            * inversion Heq; subst. exfalso. apply Hnot. right.
              exists v, e. split; [reflexivity|exact Hd].
            * right. exists k', v, e. split; [exact Hin|exact Hd]. }
      intros d. rewrite (G d). split.
      * intros H. right. exists entries. split; [reflexivity|exact H].
      * intros [H|(entries' & Heq & H)]; [discriminate|].
        inversion Heq; subst. exact H.
    + split; [intros _; left; reflexivity|intros _; eauto].
  - intros ->. reflexivity.
  - intros entries k -> Hin Hall. unfold display_metadata.
    generalize [("Number of pages", Count (List.length (pages reader)))].
    induction entries as [|[k1 val] entries IH]; intros d; [destruct Hin|].
    inversion Hall as [|? ? Hhead Htail]; subst.
    cbn [for_each]. unfold set_row at 1. cbn [fst snd].
    destruct val as [v|]; [|reflexivity].
    cbn [snd] in Hhead. rewrite (Hhead v eq_refl). cbn [bind].
    destruct Hin as [Heq|Hin]; [discriminate|].
    apply IH; assumption.
Qed.

End Display_properties.

Lemma display_metadata_rows_witness :
  exists v rest,
    [("Number of pages", Count 1); ("Title", Text "Report")]
    = ("Number of pages", v) :: rest.
Proof.
  apply (display_metadata_rows (fun x => Ok x)
           (mkReader [mkPage (fun _ => "one") []])
           (Some [("/Title", StrValue "Report")])
           [("Number of pages", Count 1); ("Title", Text "Report")]).
  reflexivity.
Defined.

Lemma display_metadata_page_count_witness :
  exists t,
    row_get "Number of pages" [("Number of pages", Text "7")] = Some (Text t).
Proof.
  apply (display_metadata_page_count (fun x => Ok x)
           (mkReader [mkPage (fun _ => "one") []])
           [("/Number of pages", StrValue "7")]
           [("Number of pages", Text "7")]).
  - reflexivity.
  - constructor. reflexivity.
Defined.

Lemma display_metadata_failure_witness :
  display_metadata (fun x => Ok x) (mkReader [mkPage (fun _ => "one") []]) None
  = Raise TypeError.
Proof.
  apply (display_metadata_failure (fun x => Ok x)
           (mkReader [mkPage (fun _ => "one") []]) None).
  reflexivity.
Defined.

(** ** [extract_tables] *)

Lemma for_each_flat_map {A B S : Type} (body : S -> B -> result S)
    (f : A -> list B) (xs : list A) :
  forall s,
    for_each (fun s x => for_each body (f x) s) xs s
    = for_each body (flat_map f xs) s.
Proof.
  induction xs as [|x xs IH]; intros s; cbn [for_each flat_map]; [reflexivity|].
  rewrite for_each_app.
  destruct (for_each body (f x) s) as [s1|e]; cbn [bind]; [apply IH|reflexivity].
Qed.

Lemma firstn_one_skipn {A : Type} (xs : list A) (i : nat) :
  firstn 1 (skipn i xs)
  = match nth_error xs i with
    | Some x => [x]
    | None => []
    end.
Proof.
  revert i. induction xs as [|x xs IH]; intros [|i]; cbn; try reflexivity.
  apply IH.
Qed.

(** The one-page slice at an index of the parser. *)
Lemma slice_list_one {A : Type} (xs : list A) (i : Z) :
  -1 <= i ->
  slice_list xs i (i + 1)
  = match (if i <? 0 then None else nth_error xs (Z.to_nat i)) with
    | Some x => [x]
    | None => []
    end.
Proof.
  intros Hi. unfold slice_list, clip_bound.
  set (n := Z.of_nat (List.length xs)).
  destruct (Z.ltb_spec i 0) as [Hneg|Hpos].
  - assert (i = -1) by lia. subst i.
    replace (-1 + 1) with 0 by reflexivity.
    replace (0 <? 0) with false by reflexivity.
    replace (Z.to_nat (Z.min 0 n - Z.max 0 (-1 + n))) with 0%nat by lia.
    reflexivity.
  - replace (i + 1 <? 0) with false by (symmetry; apply Z.ltb_ge; lia).
    destruct (Z_lt_le_dec i n) as [Hin|Hout].
    + replace (Z.min i n) with i by lia.
      replace (Z.min (i + 1) n) with (i + 1) by lia.
      replace (Z.to_nat (i + 1 - i)) with 1%nat by lia.
      apply firstn_one_skipn.
    + replace (Z.min i n) with n by lia.
      replace (Z.min (i + 1) n) with n by lia.
      replace (Z.to_nat (n - n)) with 0%nat by lia.
      assert (Hnone : nth_error xs (Z.to_nat i) = None).
      { apply nth_error_None. unfold n in Hout. lia. }
      rewrite Hnone. reflexivity.
Qed.

Section Tables_properties.

Variable PlumberPage : Type.
Variable page_tables : PlumberPage -> strategy -> strategy -> list table_rows.

(** The pages of the file an index list selects: those at the indices from
    0 to the page count less one. *)
Lemma extract_tables_listed (table_pdf_pages : list PlumberPage) (s : string)
    (vertical horizontal : strategy) (header : bool) (idxs : list Z) :
  s <> "all" ->
  parse_page_numbers s = Ok idxs ->
  extract_tables PlumberPage page_tables table_pdf_pages s vertical horizontal
                 header
  = for_each (write_tables PlumberPage page_tables vertical horizontal header)
      (flat_map (fun i => match (if i <? 0 then None
                                 else nth_error table_pdf_pages (Z.to_nat i)) with
                          | Some page => [page]
                          | None => []
                          end) idxs) [].
Proof.
  intros Hs Hp. apply String.eqb_neq in Hs.
  unfold extract_tables. rewrite Hs, Hp. cbn [bind].
  assert (Hlb : Forall (fun i => -1 <= i) idxs)
    by (apply Forall_forall; exact (parse_lower_bound s idxs Hp)).
  clear Hp.
  generalize (@nil Frame).
  induction Hlb as [|i idxs Hi _ IH]; intros written; [reflexivity|].
  cbn [for_each flat_map].
  rewrite for_each_app, (slice_list_one table_pdf_pages i Hi).
  destruct (for_each _ _ written) as [w1|e]; cbn [bind]; [apply IH|reflexivity].
Qed.

(** X23: with an explicit page specification, table extraction writes the
    tables of the listed pages that exist, in the order listed, and passes
    over every other index without raising: page number 0 and page numbers
    above the page count select nothing, where text extraction reads the
    last page or raises IndexError. *)
Theorem extract_tables_skips_missing_pages :
  forall (table_pdf_pages : list PlumberPage) (s : string)
         (vertical horizontal : strategy) (header : bool) (idxs : list Z),
    s <> "all" ->
    parse_page_numbers s = Ok idxs ->
    extract_tables PlumberPage page_tables table_pdf_pages s vertical horizontal
                   header
    = for_each (write_tables PlumberPage page_tables vertical horizontal header)
        (flat_map (fun i => match (if i <? 0 then None
                                   else nth_error table_pdf_pages (Z.to_nat i)) with
                            | Some page => [page]
                            | None => []
                            end) idxs) []
    /\ (Forall (fun i => i < 0
                         \/ Z.of_nat (List.length table_pdf_pages) <= i) idxs ->
        extract_tables PlumberPage page_tables table_pdf_pages s vertical
                       horizontal header = Ok []).
Proof.
  intros table_pdf_pages s vertical horizontal header idxs Hs Hp.
  pose proof (extract_tables_listed table_pdf_pages s vertical horizontal
                header idxs Hs Hp) as H.
  split; [exact H|].
  intros Hout. rewrite H. clear H Hp.
  replace (flat_map _ idxs) with (@nil PlumberPage); [reflexivity|].
  symmetry. induction Hout as [|i idxs Hi _ IH]; [reflexivity|].
  cbn [flat_map]. rewrite IH, app_nil_r.
  destruct (Z.ltb_spec i 0) as [Hneg|Hpos]; [reflexivity|].
  destruct Hi as [Hi|Hi]; [lia|].
  assert (Hnone : nth_error table_pdf_pages (Z.to_nat i) = None)
    by (apply nth_error_None; lia).
  rewrite Hnone. reflexivity.
Qed.

Lemma frames_loop (header : bool) (tables : list table_rows) :
  forall written,
    Forall (fun t => header = true -> t <> []) tables ->
    for_each (fun written table =>
                frame <- frame_of header table ;; Ok (written ++ [frame]))
             tables written
    = Ok (written
          ++ map (fun t => if header then mkFrame (tl t) (Some (hd [] t))
                           else mkFrame t None) tables).
Proof.
  induction tables as [|t tables IH]; intros written Hall; cbn [for_each map].
  - rewrite app_nil_r. reflexivity.
  - inversion Hall as [|? ? Ht Hrest]; subst.
    assert (Hf : frame_of header t
                 = Ok (if header then mkFrame (tl t) (Some (hd [] t))
                       else mkFrame t None)).
    { unfold frame_of. destruct header; [|reflexivity].
      destruct t as [|row t]; [exfalso; apply Ht; reflexivity|]. reflexivity. }
    rewrite Hf. cbn [bind]. rewrite (IH _ Hrest), <- app_assoc. reflexivity.
Qed.

Lemma frames_loop_empty_table (tables : list table_rows) :
  In [] tables ->
  forall written,
    for_each (fun written table =>
                frame <- frame_of true table ;; Ok (written ++ [frame]))
             tables written
    = Raise IndexError.
Proof.
  induction tables as [|t tables IH]; intros Hin written; [destruct Hin|].
  cbn [for_each]. destruct t as [|row t]; [reflexivity|].
  destruct Hin as [Heq|Hin]; [discriminate|].
  cbn [frame_of getitem]. cbn. apply IH, Hin.
Qed.

(** X24: with "all", table extraction writes one frame per table, page by
    page.  Without the header option a frame holds all the rows of its
    table and no column names; with it the first row becomes the column
    names and the other rows the data, and a table without any row makes
    the extraction raise IndexError. *)
Theorem extract_tables_all_frames :
  forall (table_pdf_pages : list PlumberPage) (vertical horizontal : strategy)
         (header : bool),
    let tables := flat_map (fun page => page_tables page vertical horizontal)
                           table_pdf_pages in
    (Forall (fun t => header = true -> t <> []) tables ->
     extract_tables PlumberPage page_tables table_pdf_pages "all" vertical
                    horizontal header
     = Ok (map (fun t => if header then mkFrame (tl t) (Some (hd [] t))
                         else mkFrame t None) tables))
    /\ (header = true -> In [] tables ->
        extract_tables PlumberPage page_tables table_pdf_pages "all" vertical
                       horizontal header
        = Raise IndexError).
Proof.
  intros table_pdf_pages vertical horizontal header tables.
  assert (E : extract_tables PlumberPage page_tables table_pdf_pages "all"
                             vertical horizontal header
              = for_each (fun written table =>
                            frame <- frame_of header table ;;
                            Ok (written ++ [frame])) tables []).
  { unfold extract_tables, write_tables. cbn [String.eqb Ascii.eqb Bool.eqb].
    apply (for_each_flat_map
             (fun written table =>
                frame <- frame_of header table ;; Ok (written ++ [frame]))
             (fun page => page_tables page vertical horizontal)). }
  rewrite E. split.
  - intros Hall. rewrite (frames_loop header tables [] Hall). reflexivity.
  - intros -> Hin. apply frames_loop_empty_table, Hin.
Qed.

End Tables_properties.

Lemma extract_tables_skips_missing_pages_witness :
  extract_tables nat (fun page _ _ => [[[Some "cell"]]]) [1%nat; 2%nat]
                 "0,3" by_text by_text false
  = Ok [].
Proof.
  apply (extract_tables_skips_missing_pages nat
           (fun page _ _ => [[[Some "cell"]]]) [1%nat; 2%nat] "0,3"
           by_text by_text false [-1; 2]).
  - discriminate.
  - reflexivity.
  - repeat constructor; simpl; lia.
Defined.

Lemma extract_tables_all_frames_witness :
  extract_tables nat (fun page _ _ => [[[Some "name"]; [Some "cell"]]])
                 [1%nat] "all" by_text by_text true
  = Ok [mkFrame [[Some "cell"]] (Some [Some "name"])].
Proof.
  apply (extract_tables_all_frames nat
           (fun page _ _ => [[[Some "name"]; [Some "cell"]]]) [1%nat]
           by_text by_text true).
  repeat constructor. discriminate.
Defined.
